(** * Nested cross-validation for a graph neural network

    A shallow embedding of the notebook [nested_cross_validation_gnn.ipynb]:
    the dataset adapter, the epoch trainer, the two evaluators, the inner
    cross-validation objective and the outer orchestrator.

    Python floats are idealised as rationals ([Q]); results that the source
    computes with floating point are compared with [==].  The libraries the
    notebook calls (torch, torch_geometric, sklearn, optuna) are external
    collaborators: the model, the optimizer and every source of randomness
    are fields of the interfaces [Torch], [RandomState] and [Optuna]. *)

From Stdlib Require Import String.
From Stdlib Require Import List Arith Lia Bool QArith Permutation.
Import ListNotations.

Local Open Scope nat_scope.

(** ** Python runtime: exceptions, state and the log *)

Inductive exn : Type :=
| ZeroDivisionError
| IndexError
| ValueError
| KeyError
| RuntimeError
| FileNotFoundError.

(** A computation reads and updates a world [W]; it returns a value or
    raises, and the world survives the exception. *)
Inductive Result (W A : Type) : Type :=
| Ok (a : A) (w : W)
| Raise (e : exn) (w : W).

Arguments Ok {W A} a w.
Arguments Raise {W A} e w.

Definition M (W A : Type) : Type := W -> Result W A.

Definition ret {W A} (a : A) : M W A := fun w => Ok a w.

Definition bind {W A B} (m : M W A) (k : A -> M W B) : M W B :=
  fun w => match m w with
           | Ok a w' => k a w'
           | Raise e w' => Raise e w'
           end.

Definition raise {W A} (e : exn) : M W A := fun w => Raise e w.

Definition modify {W} (f : W -> W) : M W unit := fun w => Ok tt (f w).

(** [try: m finally: cleanup] *)
Definition finally {W A} (m : M W A) (cleanup : W -> W) : M W A :=
  fun w => match m w with
           | Ok a w' => Ok a (cleanup w')
           | Raise e w' => Raise e (cleanup w')
           end.

Declare Scope py_scope.
Delimit Scope py_scope with py.
Notation "x <- m ;; k" := (bind m (fun x => k))
  (at level 100, m at next level, right associativity) : py_scope.
Notation "m ;; k" := (bind m (fun _ => k))
  (at level 100, right associativity) : py_scope.
Local Open Scope py_scope.

(** A [for] loop whose body ends in [acc.append(result)]. *)
Fixpoint for_collect {W A B} (l : list A) (body : A -> M W B) : M W (list B) :=
  match l with
  | [] => ret []
  | x :: r => b <- body x ;; bs <- for_collect r body ;; ret (b :: bs)
  end.

(** A [for] loop that updates local variables [acc]. *)
Fixpoint for_fold {W A S} (l : list A) (body : S -> A -> M W S) (acc : S) : M W S :=
  match l with
  | [] => ret acc
  | x :: r => acc' <- body acc x ;; for_fold r body acc'
  end.

Definition for_each {W A} (l : list A) (body : A -> M W unit) : M W unit :=
  for_fold l (fun _ x => body x) tt.

Definition enumerate {A} (l : list A) : list (nat * A) :=
  combine (seq 0 (length l)) l.

Definition final_world {W A} (r : Result W A) : W :=
  match r with Ok _ w => w | Raise _ w => w end.

(** ** Numbers *)

Definition Qnat (n : nat) : Q := inject_Z (Z.of_nat n).

Definition Qsum (l : list Q) : Q := fold_left Qplus l 0%Q.

(** Modelled from the spec: the arithmetic mean, numpy's [np.mean].  On the
    empty list numpy answers nan with a warning; the rationals have no nan
    and the quotient by zero is [0] here.  Every call in the notebook passes
    the losses of the folds of an accepted K-fold split, which has at least
    two folds. *)
Definition np_mean (l : list Q) : Q := (Qsum l / Qnat (length l))%Q.

Definition sq (x : Q) : Q := (x * x)%Q.

Fixpoint squared_errors (y_true y_pred : list Q) : list Q :=
  match y_true, y_pred with
  | a :: r, b :: s => sq (a - b) :: squared_errors r s
  | _, _ => []
  end.

(** The mean squared error of two aligned sequences. *)
Definition mse (y_true y_pred : list Q) : Q :=
  np_mean (squared_errors y_true y_pred).

(** Modelled from the spec: the mean squared error metric, sklearn's
    [mean_squared_error], on one-dimensional inputs: the lengths have to
    agree and there has to be a sample. *)
Definition mean_squared_error {W} (y_true y_pred : list Q) : M W Q :=
  if negb (length y_true =? length y_pred) then raise ValueError
  else if length y_true =? 0 then raise ValueError
  else ret (mse y_true y_pred).

(** ** The K-fold splitter *)

(** Modelled from the spec: the fixed-seed shuffle of the splitter, numpy's
    [RandomState(seed).shuffle(arange(n))], as a function of the seed and of
    [n]; [RandomStateLaws] says it is a rearrangement of [0..n-1]. *)
Class RandomState : Type :=
  { permutation : nat -> nat -> list nat }.

Class RandomStateLaws (R : RandomState) : Prop :=
  { permutation_perm : forall seed n, Permutation (permutation seed n) (seq 0 n) }.

Record KFoldT : Type :=
  { n_splits : nat; shuffle : bool; random_state : nat }.

Section Splitter.
Context {R : RandomState} {W : Type}.

(** Modelled from the spec: [sklearn.model_selection.KFold] is a library
    class and its code is not in the notebook.  The spec asks for the
    standard K-fold behaviour with a fixed seed, fold sizes that need not be
    equal and the remainder distributed across the folds; this follows
    sklearn: the constructor refuses fewer than two splits, [split] refuses
    more splits than samples, the first [n mod k] folds get one sample
    more, the folds are consecutive runs of the shuffled indices, and both
    index arrays of a split are taken from [arange(n)] with a mask. *)
Definition KFold (n_splits : nat) (shuffle : bool) (random_state : nat) : M W KFoldT :=
  if n_splits <=? 1 then raise ValueError
  else ret {| n_splits := n_splits; shuffle := shuffle; random_state := random_state |}.

(** Modelled from the spec: the fold sizes, [n // k] each and one more for
    the first [n % k] folds. *)
Definition fold_sizes (k n : nat) : list nat :=
  repeat (n / k + 1) (n mod k) ++ repeat (n / k) (k - n mod k).

(** Modelled from the spec: consecutive slices [indices[start:stop]] of the
    given sizes. *)
Fixpoint runs (indices : list nat) (sizes : list nat) : list (list nat) :=
  match sizes with
  | [] => []
  | s :: r => firstn s indices :: runs (skipn s indices) r
  end.

(** Modelled from the spec: the test folds, slices of the (shuffled)
    indices. *)
Definition iter_test_indices (kf : KFoldT) (n_samples : nat) : list (list nat) :=
  let indices := if shuffle kf then permutation (random_state kf) n_samples
                 else seq 0 n_samples in
  runs indices (fold_sizes (n_splits kf) n_samples).

Definition mem (i : nat) (l : list nat) : bool := existsb (Nat.eqb i) l.

(** Modelled from the spec: [KFold.split], the pairs (train indices, test
    indices), both ascending: the test fold as a mask over [arange(n)] and
    its complement. *)
Definition split (kf : KFoldT) (n_samples : nat) : M W (list (list nat * list nat)) :=
  if n_samples <? n_splits kf then raise ValueError
  else ret (map (fun test =>
                   (filter (fun i => negb (mem i test)) (seq 0 n_samples),
                    filter (fun i => mem i test) (seq 0 n_samples)))
                (iter_test_indices kf n_samples)).
End Splitter.

(** ** The torch collaborator *)

Definition LossFn : Type := list Q -> list Q -> Q.

(** Modelled from the spec: the model and optimizer collaborators (a
    resettable, trainable predictor with a forward call returning per-graph
    predictions; an optimizer built from the model parameters, a learning
    rate and a weight decay, with a step and a zero-gradient operation).
    The model, the optimizers built on it and torch's random generator are
    mutable objects; [Heap] is their joint state.  There is one model
    instance (the notebook's [config['model']]), so model operations take no
    handle; an [Optimizer] is a reference to an optimizer object.
    [backward] stands for [loss.backward()] on the loss of a batch, and
    [randperm] for the permutation a shuffling loader draws. *)
Class Torch : Type :=
  { Graph : Type;
    graph_y : Graph -> Q;
    Heap : Type;
    Optimizer : Type;
    Params : Type;
    parameters : Heap -> Params;
    reset_parameters : Heap -> Heap;
    model_train : Heap -> Heap;
    model_eval : Heap -> Heap;
    forward : list Graph -> Heap -> list Q * Heap;
    Adam : Q -> Q -> Heap -> Optimizer * Heap;
    zero_grad : Optimizer -> Heap -> Heap;
    backward : LossFn -> list Graph -> Heap -> Heap;
    step : Optimizer -> Heap -> Heap;
    grad_enabled : Heap -> bool;
    set_grad_enabled : bool -> Heap -> Heap;
    randperm : nat -> Heap -> list nat * Heap }.

(** What the torch contract promises of the operations an evaluator calls:
    none of them assigns a learnable parameter. *)
Class InferenceFrame (T : Torch) : Prop :=
  { forward_parameters : forall b h, parameters (snd (forward b h)) = parameters h;
    model_eval_parameters : forall h, parameters (model_eval h) = parameters h;
    set_grad_parameters : forall b h, parameters (set_grad_enabled b h) = parameters h;
    randperm_parameters : forall n h, parameters (snd (randperm n h)) = parameters h }.

(** What the runs below need of the collaborator to go through: a sampler
    permutation is one, and the model predicts one value per graph. *)
Class TorchLaws (T : Torch) : Prop :=
  { randperm_perm : forall n h, Permutation (fst (randperm n h)) (seq 0 n);
    forward_length : forall b h, length (fst (forward b h)) = length b }.

(** The records [logger.info] appends to the log file. *)
Inductive LogRecord : Type :=
| LogFold (fold k_outer : nat)
| LogLengths (n_train n_test total : nat)
| LogOptimizing
| LogInnerCV
| LogEpoch (ep : nat) (loss : Q)
| LogBestHparams
| LogRetrain
| LogTestMSE (mse : Q)
| LogMeanMSE (m : Q).

Record World {T : Torch} : Type :=
  { heap : Heap; log : list LogRecord; studies : nat }.

Section Training.
Context {T : Torch}.

Abbreviation Py := (M World).

Definition on_heap (f : Heap -> Heap) : Py unit :=
  modify (fun w => {| heap := f (heap w); log := log w; studies := studies w |}).

Definition call_heap {A} (f : Heap -> A * Heap) : Py A :=
  fun w => let (a, h) := f (heap w) in
           Ok a {| heap := h; log := log w; studies := studies w |}.

Definition logger_info (r : LogRecord) : Py unit :=
  modify (fun w => {| heap := heap w; log := log w ++ [r]; studies := studies w |}).

(** [@torch.no_grad()]: gradient mode off for the call, restored on the
    way out, also when the call raises. *)
Definition no_grad {A} (m : Py A) : Py A :=
  fun w =>
    let prev := grad_enabled (heap w) in
    finally (on_heap (set_grad_enabled false) ;; m)
            (fun w' => {| heap := set_grad_enabled prev (heap w');
                          log := log w'; studies := studies w' |}) w.

(** *** Subsets and loaders *)

(** Modelled from the spec: [torch.utils.data.Subset], a dataset seen
    through a list of indices; items are looked up when they are fetched. *)
Record SubsetT : Type := Subset { sub_dataset : list Graph; sub_indices : list nat }.

Definition subset_len (s : SubsetT) : nat := length (sub_indices s).

(** [self.dataset[self.indices[idx]]] *)
Definition subset_getitem (s : SubsetT) (idx : nat) : Py Graph :=
  match nth_error (sub_indices s) idx with
  | None => raise IndexError
  | Some j => match nth_error (sub_dataset s) j with
              | None => raise IndexError
              | Some g => ret g
              end
  end.

Record DataLoaderT : Type :=
  { dl_dataset : SubsetT; dl_batch_size : nat; dl_shuffle : bool }.

(** Modelled from the spec: the loader is torch's (a batched view of a
    dataset, the last batch possibly smaller).  Its constructor refuses a
    batch size that is not positive and, when shuffling, an empty dataset
    (the random sampler wants a positive number of samples). *)
Definition DataLoader (dataset : SubsetT) (batch_size : nat) (shuffle : bool)
  : Py DataLoaderT :=
  if shuffle && (subset_len dataset =? 0) then raise ValueError
  else if batch_size =? 0 then raise ValueError
  else ret {| dl_dataset := dataset; dl_batch_size := batch_size; dl_shuffle := shuffle |}.

(** Modelled from the spec: the batch sampler, consecutive runs of [b]
    positions, the last one possibly shorter. *)
Fixpoint batched (fuel b : nat) (l : list nat) : list (list nat) :=
  match fuel with
  | 0 => []
  | S f => match l with
           | [] => []
           | _ :: _ => firstn b l :: batched f b (skipn b l)
           end
  end.

(** Modelled from the spec: starting an iteration over a loader fixes the
    order of the positions (a fresh permutation when shuffling) and cuts it
    into batches. *)
Definition loader_batches (loader : DataLoaderT) : Py (list (list nat)) :=
  let n := subset_len (dl_dataset loader) in
  order <- (if dl_shuffle loader then call_heap (randperm n) else ret (seq 0 n)) ;;
  ret (batched (length order) (dl_batch_size loader) order).

(** Fetching and collating one batch. *)
Definition fetch (loader : DataLoaderT) (idxs : list nat) : Py (list Graph) :=
  for_collect idxs (subset_getitem (dl_dataset loader)).

(** *** The epoch trainer *)

Definition train_one_epoch (train_loader : DataLoaderT) (optimizer : Optimizer)
           (loss_fn : LossFn) : Py Q :=
  batches <- loader_batches train_loader ;;
  acc <- for_fold batches
    (fun '(running_loss, num_data) idxs =>
       data <- fetch train_loader idxs ;;
       on_heap (zero_grad optimizer) ;;
       pred <- call_heap (forward data) ;;
       let loss := loss_fn pred (map graph_y data) in
       on_heap (backward loss_fn data) ;;
       on_heap (step optimizer) ;;
       ret ((running_loss + loss * Qnat (length data))%Q, num_data + length data))
    (0%Q, 0) ;;
  let '(running_loss, num_data) := acc in
  if num_data =? 0 then raise ZeroDivisionError
  else ret (running_loss / Qnat num_data)%Q.

Definition train (num_epochs : nat) (train_loader : DataLoaderT)
           (optimizer : Optimizer) (loss_fn : LossFn) : Py unit :=
  on_heap model_train ;;
  for_each (seq 0 num_epochs)
    (fun ep =>
       loss <- train_one_epoch train_loader optimizer loss_fn ;;
       logger_info (LogEpoch ep loss)).

(** *** The evaluators *)

Definition validate (loader : DataLoaderT) (loss_fn : LossFn) : Py Q :=
  no_grad
    (on_heap model_eval ;;
     batches <- loader_batches loader ;;
     acc <- for_fold batches
       (fun '(valid_loss, num_data) idxs =>
          data <- fetch loader idxs ;;
          pred <- call_heap (forward data) ;;
          let loss := loss_fn pred (map graph_y data) in
          ret ((valid_loss + loss * Qnat (length data))%Q, num_data + length data))
       (0%Q, 0) ;;
     let '(valid_loss, num_data) := acc in
     if num_data =? 0 then raise ZeroDivisionError
     else ret (valid_loss / Qnat num_data)%Q).

(** [torch.cat((pred, data.y), dim=1)]: one row [pred_i; y_i] per graph. *)
Fixpoint rows (pred ys : list Q) : list (list Q) :=
  match pred, ys with
  | p :: r, t :: s => [p; t] :: rows r s
  | _, _ => []
  end.

Definition cat_dim1 (pred ys : list Q) : Py (list (list Q)) :=
  if length pred =? length ys then ret (rows pred ys) else raise RuntimeError.

(** [torch.cat(output, dim=0)]: the rows of all batches, one after the
    other; it refuses an empty list of tensors. *)
Definition cat_dim0 (output : list (list (list Q))) : Py (list (list Q)) :=
  match output with
  | [] => raise RuntimeError
  | _ :: _ => ret (concat output)
  end.

(** [t[i]] on a two-dimensional tensor is its row [i]. *)
Definition tensor_getitem (t : list (list Q)) (i : nat) : Py (list Q) :=
  match nth_error t i with
  | None => raise IndexError
  | Some row => ret row
  end.

Definition test (loader : DataLoaderT) (loss_fn : LossFn) : Py Q :=
  no_grad
    (on_heap model_eval ;;
     batches <- loader_batches loader ;;
     output <- for_collect batches
       (fun idxs =>
          data <- fetch loader idxs ;;
          pred <- call_heap (forward data) ;;
          let loss := loss_fn pred (map graph_y data) in
          concatenated_batch <- cat_dim1 pred (map graph_y data) ;;
          ret concatenated_batch) ;;
     stacked_output <- cat_dim0 output ;;
     y_true <- tensor_getitem stacked_output 1 ;;
     y_pred <- tensor_getitem stacked_output 0 ;;
     mse <- mean_squared_error y_true y_pred ;;
     logger_info (LogTestMSE mse) ;;
     ret mse).
End Training.

(** ** The hyperparameter-search driver *)

Inductive Direction : Type := Minimize | Maximize.

(** A Python dict of suggested values, in insertion order. *)
Definition ParamDict : Type := list (string * Q).

Fixpoint dict_get (d : ParamDict) (k : string) : option Q :=
  match d with
  | [] => None
  | (k', v) :: r => if String.eqb k k' then Some v else dict_get r k
  end.

Record FrozenTrial : Type :=
  { ft_number : nat; ft_params : ParamDict; ft_value : Q }.

(** A running trial knows its study, the finished trials and what it was
    asked to suggest so far. *)
Record Trial : Type :=
  { t_study : nat; t_trials : list FrozenTrial; t_number : nat; t_params : ParamDict }.

Record Study : Type :=
  { study_id : nat; direction : Direction; trials : list FrozenTrial }.

(** Modelled from the spec: the search driver is an external sequential
    optimizer.  Its sampler proposes a value for a parameter of a trial
    within [low, high], knowing the finished trials; its clock says whether
    the time budget of a study ran out before its trial number [i]. *)
Class Optuna : Type :=
  { sample : Trial -> string -> Q -> Q -> Q;
    timed_out : Q -> nat -> nat -> bool }.

Section Search.
Context {T : Torch} {R : RandomState} {O : Optuna}.

Abbreviation Py := (M World).

(** [d[k]] *)
Definition dict_getitem (d : ParamDict) (k : string) : Py Q :=
  match dict_get d k with
  | None => raise KeyError
  | Some v => ret v
  end.

(** Modelled from the spec: [trial.suggest_float(name, low, high,
    log=False)]; a name suggested before keeps its value, the trial object
    records a new one. *)
Definition suggest_float (trial : Trial) (name : string) (low high : Q) : Q * Trial :=
  match dict_get (t_params trial) name with
  | Some v => (v, trial)
  | None =>
      let v := sample trial name low high in
      (v, {| t_study := t_study trial; t_trials := t_trials trial;
             t_number := t_number trial;
             t_params := t_params trial ++ [(name, v)] |})
  end.

(** Modelled from the spec: a new search session, with a fresh identity. *)
Definition create_study (direction : Direction) : Py Study :=
  fun w => Ok {| study_id := studies w; direction := direction; trials := [] |}
              {| heap := heap w; log := log w; studies := S (studies w) |}.

(** Modelled from the spec: [study.optimize(objective, n_trials, timeout)].
    Trials run one after the other until [n_trials] are done or the time
    budget is found exhausted before a trial starts; every trial result is
    recorded; an exception of the objective is not caught. *)
Fixpoint optimize (study : Study) (objective : Trial -> Py (Q * Trial))
         (n_trials : nat) (timeout : Q) : Py Study :=
  match n_trials with
  | 0 => ret study
  | S n =>
      let i := length (trials study) in
      if timed_out timeout (study_id study) i then ret study
      else
        let trial := {| t_study := study_id study; t_trials := trials study;
                        t_number := i; t_params := [] |} in
        r <- objective trial ;;
        let '(value, trial') := r in
        let frozen := {| ft_number := i; ft_params := t_params trial';
                         ft_value := value |} in
        optimize {| study_id := study_id study; direction := direction study;
                    trials := trials study ++ [frozen] |} objective n timeout
  end.

Definition Qlt_bool (a b : Q) : bool := negb (Qle_bool b a).

(** Modelled from the spec: the best trial is one of minimum value when
    minimizing; the stored best changes only for a strictly better value. *)
Definition better (d : Direction) (best new : FrozenTrial) : bool :=
  match d with
  | Minimize => Qlt_bool (ft_value new) (ft_value best)
  | Maximize => Qlt_bool (ft_value best) (ft_value new)
  end.

Fixpoint best_of (d : Direction) (best : FrozenTrial) (l : list FrozenTrial) : FrozenTrial :=
  match l with
  | [] => best
  | t :: r => best_of d (if better d best t then t else best) r
  end.

(** Modelled from the spec: [study.best_trial]; a study without a finished
    trial has none. *)
Definition best_trial (study : Study) : Py FrozenTrial :=
  match trials study with
  | [] => raise ValueError
  | t :: r => ret (best_of (direction study) t r)
  end.

(** ** The inner cross-validation objective *)

(** [dataset] is the notebook's global of that name, which the body reads;
    the [model] argument is the one model instance of the heap.  The trial
    object is updated by [suggest_float], so it is returned next to the
    mean loss. *)
Definition cv_objective (dataset : list Graph) (trial : Trial) (k_inner : nat)
           (train_val_data : SubsetT) (loss_fn : LossFn) (num_epochs : nat)
  : Py (Q * Trial) :=
  logger_info LogInnerCV ;;
  fold <- KFold k_inner true 0 ;;
  let '(lr, trial) := suggest_float trial "lr" (1 # 100000) (1 # 100) in
  let '(weight_decay, trial) :=
    suggest_float trial "weight_decay" (1 # 100000) (1 # 1000) in
  optimizer <- call_heap (Adam lr weight_decay) ;;
  splits <- split fold (subset_len train_val_data) ;;
  inner_cv_loss <- for_collect (enumerate splits)
    (fun '(fold_idx, (train_idx, valid_idx)) =>
       let train_data := Subset dataset train_idx in
       let valid_data := Subset dataset valid_idx in
       train_loader <- DataLoader train_data 32 true ;;
       valid_loader <- DataLoader valid_data 32 true ;;
       on_heap reset_parameters ;;
       train num_epochs train_loader optimizer loss_fn ;;
       loss_v <- validate valid_loader loss_fn ;;
       ret loss_v) ;;
  ret (np_mean inner_cv_loss, trial).

(** ** The outer orchestrator *)

Inductive OptimizerClass : Type := TorchOptimAdam.

(** The [config] dict, one field per key the experiment unpacks, but for
    [config['model']]: that key holds a reference to the one model object of
    the run, whose state is the heap of the world, and every call on it
    ([reset_parameters], [parameters], the forward pass) is a heap
    operation.  A value of this record therefore fixes the configuration up
    to its model, and a run is a function of the record and of the world. *)
Record Config : Type :=
  { cfg_dataset : list Graph;
    cfg_loss_fn : LossFn;
    cfg_optimizer_class : OptimizerClass;
    cfg_num_epochs : nat;
    cfg_batch_size : nat;
    cfg_k_inner : nat;
    cfg_k_outer : nat;
    cfg_objective : Trial -> nat -> SubsetT -> LossFn -> nat -> Py (Q * Trial);
    cfg_n_trials : nat;
    cfg_timeout_optuna : Q }.

(** The function has no [return]: its value is [None]. *)
Definition nested_cv_experiment (config : Config) : Py (option Q) :=
  let dataset := cfg_dataset config in
  let loss_fn := cfg_loss_fn config in
  let optimizer_class := cfg_optimizer_class config in
  let num_epochs := cfg_num_epochs config in
  let batch_size := cfg_batch_size config in
  let k_inner := cfg_k_inner config in
  let k_outer := cfg_k_outer config in
  let objective := cfg_objective config in
  let n_trials := cfg_n_trials config in
  let timeout_optuna := cfg_timeout_optuna config in
  cv_outer <- KFold k_outer true 22 ;;
  splits <- split cv_outer (length dataset) ;;
  eval_loss <- for_collect (enumerate splits)
    (fun '(fold, (train_ids, test_ids)) =>
       logger_info (LogFold fold k_outer) ;;
       logger_info (LogLengths (length train_ids) (length test_ids)
                               (length test_ids + length train_ids)) ;;
       let train_data := Subset dataset train_ids in
       let test_data := Subset dataset test_ids in
       on_heap reset_parameters ;;
       logger_info LogOptimizing ;;
       study <- create_study Minimize ;;
       let cv_objective :=
         fun trial => objective trial k_inner train_data loss_fn num_epochs in
       study <- optimize study cv_objective 2 timeout_optuna ;;
       best <- best_trial study ;;
       let best_params := ft_params best in
       logger_info LogBestHparams ;;
       lr <- dict_getitem best_params "lr" ;;
       weight_decay <- dict_getitem best_params "weight_decay" ;;
       optimizer <- call_heap (Adam lr weight_decay) ;;
       logger_info LogRetrain ;;
       on_heap reset_parameters ;;
       train_loader <- DataLoader train_data 32 false ;;
       train num_epochs train_loader optimizer loss_fn ;;
       test_loader <- DataLoader test_data 32 false ;;
       mse_fold <- test test_loader loss_fn ;;
       ret mse_fold) ;;
  logger_info (LogMeanMSE (np_mean eval_loss)) ;;
  ret None.

Definition set_batch_size (b : nat) (config : Config) : Config :=
  {| cfg_dataset := cfg_dataset config;
     cfg_loss_fn := cfg_loss_fn config;
     cfg_optimizer_class := cfg_optimizer_class config;
     cfg_num_epochs := cfg_num_epochs config;
     cfg_batch_size := b;
     cfg_k_inner := cfg_k_inner config;
     cfg_k_outer := cfg_k_outer config;
     cfg_objective := cfg_objective config;
     cfg_n_trials := cfg_n_trials config;
     cfg_timeout_optuna := cfg_timeout_optuna config |}.
End Search.

(** ** The dataset adapter *)

Section MoleculeDataset.
(** What [from_smiles] builds from a descriptor string (node features cast
    to float, edge index, edge features); the target is attached by
    [process]. *)
Variable Mol : Type.
Variable from_smiles : string -> Mol.

Record Data : Type := { mol : Mol; data_y : Q }.

(** A data frame restricted to the two columns the adapter reads: the
    [smiles_label] column and the [target_label] column, row by row. *)
Definition DataFrame : Type := list (string * Q).

(** The raw CSV files by path, and the processed directory: the content of
    [data_{idx}.pt] by [idx]. *)
Definition RawFiles : Type := string -> option DataFrame.
Definition ProcessedDir : Type := nat -> option Data.

Definition read_csv (fs : RawFiles) (path : string) : M ProcessedDir DataFrame :=
  match fs path with
  | None => raise FileNotFoundError
  | Some df => ret df
  end.

Definition list_getitem {A} (l : list A) (i : nat) : M ProcessedDir A :=
  match nth_error l i with
  | None => raise IndexError
  | Some x => ret x
  end.

Definition series_getitem (col : list Q) (i : nat) : M ProcessedDir Q :=
  match nth_error col i with
  | None => raise KeyError
  | Some x => ret x
  end.

Definition torch_save (g : Data) (idx : nat) : M ProcessedDir unit :=
  modify (fun d j => if j =? idx then Some g else d j).

Definition process (fs : RawFiles) (raw_paths : list string) : M ProcessedDir unit :=
  idx <- for_fold raw_paths
    (fun idx raw_path =>
       first_path <- list_getitem raw_paths 0 ;;
       df <- read_csv fs first_path ;;
       for_fold (enumerate (map fst df))
         (fun idx '(i, smile) =>
            let g := from_smiles smile in
            y <- series_getitem (map snd df) i ;;
            let g := {| mol := g; data_y := y |} in
            torch_save g idx ;;
            ret (idx + 1))
         idx)
    0 ;;
  ret tt.

(** The graphs of one file, in row order. *)
Definition graphs_of (df : DataFrame) : list Data :=
  map (fun '(smile, y) => {| mol := from_smiles smile; data_y := y |}) df.
End MoleculeDataset.

Arguments mol {Mol} d.
Arguments data_y {Mol} d.

(** ** A small concrete collaborator

    A one-parameter linear model [pred = theta * x] trained by plain gradient
    steps; its forward pass records the graphs it is shown.  It serves to run
    the program on concrete inputs. *)

Record ToyGraph : Type := { gid : nat; gx : Q; gy : Q }.

Record ToyHeap : Type :=
  { theta : Q; training : bool; grad_mode : bool; grad : Q; seen : list nat }.

Definition toy_forward (b : list ToyGraph) (h : ToyHeap) : list Q * ToyHeap :=
  (map (fun g => (theta h * gx g)%Q) b,
   {| theta := theta h; training := training h; grad_mode := grad_mode h;
      grad := grad h; seen := seen h ++ map gid b |}).

Definition toy_gradient (th : Q) (b : list ToyGraph) : Q :=
  np_mean (map (fun g => (2 * (th * gx g - gy g) * gx g)%Q) b).

Definition toy_torch : Torch :=
  {| Graph := ToyGraph;
     graph_y := gy;
     Heap := ToyHeap;
     Optimizer := Q;
     Params := Q;
     parameters := theta;
     reset_parameters := fun h =>
       {| theta := 0; training := training h; grad_mode := grad_mode h;
          grad := grad h; seen := seen h |};
     model_train := fun h =>
       {| theta := theta h; training := true; grad_mode := grad_mode h;
          grad := grad h; seen := seen h |};
     model_eval := fun h =>
       {| theta := theta h; training := false; grad_mode := grad_mode h;
          grad := grad h; seen := seen h |};
     forward := toy_forward;
     Adam := fun lr _ h => (lr, h);
     zero_grad := fun _ h =>
       {| theta := theta h; training := training h; grad_mode := grad_mode h;
          grad := 0; seen := seen h |};
     backward := fun _ b h =>
       {| theta := theta h; training := training h; grad_mode := grad_mode h;
          grad := Qred (grad h + toy_gradient (theta h) b); seen := seen h |};
     step := fun lr h =>
       {| theta := Qred (theta h - lr * grad h); training := training h;
          grad_mode := grad_mode h; grad := grad h; seen := seen h |};
     grad_enabled := grad_mode;
     set_grad_enabled := fun b h =>
       {| theta := theta h; training := training h; grad_mode := b;
          grad := grad h; seen := seen h |};
     randperm := fun n h => (seq 0 n, h) |}.

Definition toy_random : RandomState :=
  {| permutation := fun _ n => seq 0 n |}.

Definition toy_optuna : Optuna :=
  {| sample := fun trial _ low high =>
       if t_number trial =? 0 then low else high;
     timed_out := fun _ _ _ => false |}.

Definition toy_heap (th : Q) : ToyHeap :=
  {| theta := th; training := false; grad_mode := true; grad := 0; seen := [] |}.

Definition toy_world (th : Q) : @World toy_torch :=
  @Build_World toy_torch (toy_heap th) [] 0.

(** Graph number [i] lies on the line [y = x]. *)
Definition toy_graph (i : nat) : ToyGraph :=
  {| gid := i; gx := Qnat i; gy := Qnat i |}.

Definition toy_dataset (n : nat) : list (@Graph toy_torch) := map toy_graph (seq 0 n).

Definition mse_loss : LossFn := mse.

Definition toy_loader (ds : list (@Graph toy_torch)) (batch_size : nat)
  : @DataLoaderT toy_torch :=
  {| dl_dataset := @Subset toy_torch ds (seq 0 (length ds));
     dl_batch_size := batch_size; dl_shuffle := false |}.

Definition toy_config (n k_outer k_inner n_trials batch_size : nat)
  : @Config toy_torch :=
  {| cfg_dataset := toy_dataset n;
     cfg_loss_fn := mse_loss;
     cfg_optimizer_class := TorchOptimAdam;
     cfg_num_epochs := 2;
     cfg_batch_size := batch_size;
     cfg_k_inner := k_inner;
     cfg_k_outer := k_outer;
     cfg_objective := @cv_objective toy_torch toy_random toy_optuna (toy_dataset n);
     cfg_n_trials := n_trials;
     cfg_timeout_optuna := 300 |}.

(** Two raw files, and a descriptor parser that keeps the string. *)
Definition toy_files : RawFiles :=
  fun path =>
    if String.eqb path "a.csv" then Some [("C"%string, 1%Q)]
    else if String.eqb path "b.csv" then Some [("CC"%string, 2%Q); ("CCC"%string, 3%Q)]
    else None.

Definition empty_dir : ProcessedDir string := fun _ => None.

(** ** Vocabulary of the statements *)

(** Total correctness: from [w] the computation returns, and its value and
    final world satisfy [post]. *)
Definition wp {W A} (m : M W A) (w : W) (post : A -> W -> Prop) : Prop :=
  match m w with
  | Ok a w' => post a w'
  | Raise _ _ => False
  end.

Definition raises {W A} (m : M W A) (w : W) (e : exn) : Prop :=
  match m w with
  | Ok _ _ => False
  | Raise e' _ => e' = e
  end.

(** The test metrics and the number of objective calls a log reports. *)
Fixpoint test_metrics (l : list LogRecord) : list Q :=
  match l with
  | [] => []
  | LogTestMSE v :: r => v :: test_metrics r
  | _ :: r => test_metrics r
  end.

Fixpoint objective_calls (l : list LogRecord) : nat :=
  match l with
  | [] => 0
  | LogInnerCV :: r => S (objective_calls r)
  | _ :: r => objective_calls r
  end.

Section Vocabulary.
Context {T : Torch}.

(** A computation keeps the learnable parameters, however it ends. *)
Definition keeps_parameters {A} (m : M World A) : Prop :=
  forall w, parameters (heap (final_world (m w))) = parameters (heap w).

(** A loader over a well-formed subset: a positive batch size and indices
    within the underlying dataset. *)
Definition loader_ok (loader : DataLoaderT) : Prop :=
  0 < dl_batch_size loader /\
  Forall (fun j => j < length (sub_dataset (dl_dataset loader)))
         (sub_indices (dl_dataset loader)).

(** The order in which a loader visits its subset, and the world after
    drawing it. *)
Definition drawn_order (loader : DataLoaderT) (w : World) : list nat * World :=
  if dl_shuffle loader
  then (fst (randperm (subset_len (dl_dataset loader)) (heap w)),
        {| heap := snd (randperm (subset_len (dl_dataset loader)) (heap w));
           log := log w; studies := studies w |})
  else (seq 0 (subset_len (dl_dataset loader)), w).

(** The per-batch losses of one training epoch with the batch sizes, in
    the order the batches are drawn: the same steps as [train_one_epoch],
    recording instead of accumulating. *)
Definition batch_losses (train_loader : DataLoaderT) (optimizer : Optimizer)
           (loss_fn : LossFn) : M World (list (Q * nat)) :=
  batches <- loader_batches train_loader ;;
  for_collect batches
    (fun idxs =>
       data <- fetch train_loader idxs ;;
       on_heap (zero_grad optimizer) ;;
       pred <- call_heap (forward data) ;;
       on_heap (backward loss_fn data) ;;
       on_heap (step optimizer) ;;
       ret (loss_fn pred (map graph_y data), length data)).
End Vocabulary.

(** The sum over batches of loss times sample count, over the total sample
    count; and the plain average of the per-batch losses. *)
Definition weighted_mean (trace : list (Q * nat)) : Q :=
  (Qsum (map (fun b => fst b * Qnat (snd b)) trace)
   / Qnat (list_sum (map snd trace)))%Q.

Definition naive_mean (trace : list (Q * nat)) : Q :=
  (Qsum (map fst trace) / Qnat (length trace))%Q.

(** Ten samples in batches of four: sizes 4, 4, 2, here with losses 1, 1, 2. *)
Definition unequal_batches : list (Q * nat) := [(1%Q, 4); (1%Q, 4); (2%Q, 2)].

(** A parameter dict that holds both hyperparameters the retraining reads. *)
Definition has_hparams (d : ParamDict) : Prop :=
  dict_get d "lr" <> None /\ dict_get d "weight_decay" <> None.

(** The graphs a subset holds, and a fresh trial as a study starts one. *)
Definition subset_items {T : Torch} (s : SubsetT) : list Graph :=
  flat_map (fun j => match nth_error (sub_dataset s) j with
                     | Some g => [g]
                     | None => []
                     end) (sub_indices s).

Definition fresh_trial (study number : nat) : Trial :=
  {| t_study := study; t_trials := []; t_number := number; t_params := [] |}.

(** The processed directory after the graphs [gs] were saved at the
    consecutive indices from [idx] on. *)
Definition written {Mol} (idx : nat) (gs : list (Data Mol)) (d : ProcessedDir Mol)
  : ProcessedDir Mol :=
  fun j => if (idx <=? j) && (j <? idx + length gs)
           then nth_error gs (j - idx) else d j.

(** ** The dataset adapter as an object *)

Section MoleculeDatasetObject.
Variable Mol : Type.
Variable from_smiles : string -> Mol.

(** The adapter owns the processed directory and caches [data_count]. *)
Record DatasetState : Type :=
  { data_count : option nat; processed : ProcessedDir Mol }.

(** A computation on the processed directory, run inside the adapter. *)
Definition in_dir {A} (m : M (ProcessedDir Mol) A) : M DatasetState A :=
  fun s => match m (processed s) with
           | Ok a d => Ok a {| data_count := data_count s; processed := d |}
           | Raise e d => Raise e {| data_count := data_count s; processed := d |}
           end.

Definition _calculate_num_data_objects (fs : RawFiles) (raw_paths : list string)
  : M DatasetState nat :=
  for_fold raw_paths
    (fun count raw_path =>
       df <- in_dir (read_csv Mol fs raw_path) ;;
       ret (count + length df))
    0.

(** The file [data_{i}.pt] is named by its index [i]. *)
Definition processed_file_names (fs : RawFiles) (raw_paths : list string)
  : M DatasetState (list nat) :=
  fun s =>
    match data_count s with
    | None =>
        (n <- _calculate_num_data_objects fs raw_paths ;;
         modify (fun s' => {| data_count := Some n; processed := processed s' |}) ;;
         ret (seq 0 n)) s
    | Some n => ret (seq 0 n) s
    end.

Definition len (fs : RawFiles) (raw_paths : list string) : M DatasetState nat :=
  names <- processed_file_names fs raw_paths ;;
  ret (length names).

(** [torch.load] of a file of the processed directory. *)
Definition torch_load (idx : nat) : M (ProcessedDir Mol) (Data Mol) :=
  fun d => match d idx with
           | Some g => Ok g d
           | None => Raise FileNotFoundError d
           end.

Definition get (idx : nat) : M DatasetState (Data Mol) :=
  in_dir (torch_load idx).
End MoleculeDatasetObject.

Arguments data_count {Mol} d.
Arguments processed {Mol} d.

(** ** More vocabulary *)

(** From [w] the computation raises [e], and the world it leaves
    satisfies [post]. *)
Definition fails {W A} (m : M W A) (w : W) (e : exn) (post : W -> Prop) : Prop :=
  match m w with
  | Ok _ _ => False
  | Raise e' w' => e' = e /\ post w'
  end.

(** The members of [items] at the positions [idxs], in that order. *)
Definition picked {A} (items : list A) (idxs : list nat) : list A :=
  flat_map (fun i => match nth_error items i with
                     | Some g => [g]
                     | None => []
                     end) idxs.

(** A model whose forward pass predicts graph by graph from its state, and
    whose predictions neither a forward pass nor drawing a permutation
    changes. *)
Class PerGraphForward (T : Torch) (predict : Heap -> Graph -> Q) : Prop :=
  { forward_predict : forall b h, fst (forward b h) = map (predict h) b;
    forward_same : forall b h g, predict (snd (forward b h)) g = predict h g;
    randperm_same : forall n h g, predict (snd (randperm n h)) g = predict h g }.

(** The squared error of one graph under a prediction function. *)
Definition graph_sq_error {T : Torch} (f : Graph -> Q) (g : Graph) : Q :=
  sq (f g - graph_y g).

(** The epoch records of [losses], numbered from [start]. *)
Definition epoch_records (start : nat) (losses : list Q) : list LogRecord :=
  map (fun p => LogEpoch (fst p) (snd p)) (combine (seq start (length losses)) losses).

Definition toy_predict (h : ToyHeap) (g : ToyGraph) : Q := (theta h * gx g)%Q.

(** A search driver whose time budget is exhausted from the start. *)
Definition expired_optuna : Optuna :=
  {| sample := fun _ _ low _ => low; timed_out := fun _ _ _ => true |}.

Definition toy_state (d : ProcessedDir string) : DatasetState string :=
  {| data_count := None; processed := d |}.

(** The largest test fold of a [k]-fold split of [n] samples: the ceiling
    of [n / k]. *)
Definition max_fold_size (n k : nat) : nat :=
  n / k + (if n mod k =? 0 then 0 else 1).

(** The number of fold-opening records of a log. *)
Fixpoint fold_starts (l : list LogRecord) : nat :=
  match l with
  | [] => 0
  | LogFold _ _ :: r => S (fold_starts r)
  | _ :: r => fold_starts r
  end.

(** The log of [k_outer] outer folds: fold [i] opens with its record
    [LogFold i k_outer], followed by what that fold logs. *)
Definition fold_logs (k_outer : nat) (blocks : list (list LogRecord)) : list LogRecord :=
  concat (map (fun p => LogFold (fst p) k_outer :: snd p) (enumerate blocks)).

(** * Properties *)

(** ** The K-fold splitter partitions its index range *)

Section SplitterFacts.
Context {R : RandomState} {L : RandomStateLaws R}.

Lemma list_sum_repeat (a n : nat) : list_sum (repeat a n) = n * a.
Proof. induction n as [|n IH]; simpl; [reflexivity | rewrite IH; reflexivity]. Qed.

Lemma fold_sizes_sum (k n : nat) : 0 < k -> list_sum (fold_sizes k n) = n.
Proof.
  intros Hk. unfold fold_sizes.
  rewrite list_sum_app, !list_sum_repeat.
  pose proof (Nat.div_mod_eq n k) as Hd.
  pose proof (Nat.mod_upper_bound n k ltac:(lia)) as Hm.
  nia.
Qed.

Lemma fold_sizes_length (k n : nat) : 0 < k -> length (fold_sizes k n) = k.
Proof.
  intros Hk. unfold fold_sizes. rewrite length_app, !repeat_length.
  pose proof (Nat.mod_upper_bound n k ltac:(lia)). lia.
Qed.

Lemma runs_length (sizes indices : list nat) :
  length (runs indices sizes) = length sizes.
Proof.
  revert indices. induction sizes as [|s r IH]; intros indices; simpl;
    [reflexivity | now rewrite IH].
Qed.

Lemma runs_concat (sizes indices : list nat) :
  list_sum sizes = length indices -> concat (runs indices sizes) = indices.
Proof.
  revert indices. induction sizes as [|s r IH]; intros indices Hs; simpl in *.
  - destruct indices; [reflexivity | discriminate].
  - rewrite IH.
    + apply firstn_skipn.
    + rewrite length_skipn. lia.
Qed.

(** Each run has the length its fold size asks for. *)
Lemma runs_sizes (sizes indices : list nat) :
  list_sum sizes <= length indices ->
  Forall2 (fun run s => length run = s) (runs indices sizes) sizes.
Proof.
  revert indices. induction sizes as [|s r IH]; intros indices Hs; simpl in *.
  - constructor.
  - constructor.
    + rewrite length_firstn. lia.
    + apply IH. rewrite length_skipn. lia.
Qed.

Lemma mem_In (i : nat) (l : list nat) : mem i l = true <-> In i l.
Proof.
  unfold mem. rewrite existsb_exists. split.
  - intros [x [Hx He]]. apply Nat.eqb_eq in He. now subst.
  - intros H. exists i. split; [assumption | apply Nat.eqb_refl].
Qed.

(** The mask of a duplicate-free run selects a rearrangement of the run. *)
Lemma mask_permutation (n : nat) (run : list nat) :
  NoDup run -> (forall x, In x run -> x < n) ->
  Permutation (filter (fun i => mem i run) (seq 0 n)) run.
Proof.
  intros Hnd Hlt. apply NoDup_Permutation.
  - apply NoDup_filter, seq_NoDup.
  - assumption.
  - intros x. rewrite filter_In, mem_In, in_seq. split.
    + tauto.
    + intros H. specialize (Hlt x H). split; [lia | assumption].
Qed.

Lemma masks_permutation (n : nat) (rs : list (list nat)) :
  NoDup (concat rs) -> (forall x, In x (concat rs) -> x < n) ->
  Permutation (concat (map (fun run => filter (fun i => mem i run) (seq 0 n)) rs))
              (concat rs).
Proof.
  induction rs as [|run rs IH]; intros Hnd Hlt; simpl in *.
  - constructor.
  - apply Permutation_app.
    + apply mask_permutation.
      * now apply NoDup_app_remove_r in Hnd.
      * intros x Hx. apply Hlt, in_or_app. now left.
    + apply IH.
      * now apply NoDup_app_remove_l in Hnd.
      * intros x Hx. apply Hlt, in_or_app. now right.
Qed.

Lemma NoDup_app_disjoint (l1 l2 : list nat) (x : nat) :
  NoDup (l1 ++ l2) -> In x l1 -> In x l2 -> False.
Proof.
  induction l1 as [|a l1 IH]; simpl; intros Hnd H1 H2; [contradiction|].
  apply NoDup_cons_iff in Hnd. destruct Hnd as [Hn Hnd].
  destruct H1 as [-> | H1].
  - apply Hn, in_or_app. now right.
  - now apply IH.
Qed.

(** Two different members of a duplicate-free concatenation are disjoint. *)
Lemma concat_disjoint (ls : list (list nat)) (i j : nat) (x : nat) :
  NoDup (concat ls) -> i < j ->
  In x (nth i ls []) -> In x (nth j ls []) -> False.
Proof.
  revert i j. induction ls as [|l ls IH]; intros i j Hnd Hij Hi Hj.
  - destruct i; contradiction.
  - simpl in Hnd. destruct j as [|j]; [lia|].
    destruct i as [|i]; simpl in Hi, Hj.
    + apply (NoDup_app_disjoint _ _ x Hnd Hi). apply in_concat. exists (nth j ls []). split; [|assumption].
      destruct (Nat.lt_ge_cases j (length ls)) as [Hl | Hl].
      * now apply nth_In.
      * rewrite nth_overflow in Hj by assumption. contradiction.
    + apply (IH i j); [now apply NoDup_app_remove_l in Hnd | lia | assumption | assumption].
Qed.

Lemma indices_permutation (kf : KFoldT) (n : nat) :
  Permutation (if shuffle kf then permutation (random_state kf) n else seq 0 n)
              (seq 0 n).
Proof. destruct (shuffle kf); [apply permutation_perm | apply Permutation_refl]. Qed.

Lemma iter_test_indices_concat (kf : KFoldT) (n : nat) :
  0 < n_splits kf ->
  Permutation (concat (iter_test_indices kf n)) (seq 0 n).
Proof.
  intros Hk. unfold iter_test_indices.
  rewrite runs_concat.
  - apply indices_permutation.
  - rewrite fold_sizes_sum by assumption.
    rewrite (Permutation_length (indices_permutation kf n)). now rewrite length_seq.
Qed.

Lemma iter_test_indices_length (kf : KFoldT) (n : nat) :
  0 < n_splits kf -> length (iter_test_indices kf n) = n_splits kf.
Proof.
  intros Hk. unfold iter_test_indices. now rewrite runs_length, fold_sizes_length.
Qed.

Lemma map_nth_snd (ls : list (list nat)) (f g : list nat -> list nat) (j : nat) :
  g [] = [] ->
  snd (nth j (map (fun t => (f t, g t)) ls) ([], [])) = g (nth j ls []).
Proof.
  intros Hg. revert j. induction ls as [|l ls IH]; intros [|j]; simpl;
    try (now rewrite Hg); try reflexivity. apply IH.
Qed.
End SplitterFacts.

Lemma filter_mem_nil (l : list nat) : filter (fun i => mem i []) l = [].
Proof. induction l as [|a l IH]; simpl; [reflexivity | exact IH]. Qed.

(** C6. For [2 <= k <= n], constructing the splitter and splitting [n]
    indices succeeds and yields [k] splits; the validation index sets,
    taken together, hold every index of [0..n-1] exactly once (so their
    union is the whole range), any two of them are disjoint, and in each
    split the training set is the complement of the validation set within
    [0..n-1].  This holds for every seed and with or without shuffling, so
    for the outer split (seed 22, the whole dataset) and for the inner one
    (seed 0, the pool). *)
Theorem kfold_partition (R : RandomState) (L : RandomStateLaws R) (W : Type)
        (k n seed : nat) (sh : bool) (w : W) :
  2 <= k -> k <= n ->
  exists splits,
    (kf <- KFold k sh seed ;; split kf n) w = Ok splits w /\
    length splits = k /\
    Permutation (concat (map snd splits)) (seq 0 n) /\
    (forall i j x, i < j ->
       In x (snd (nth i splits ([], []))) ->
       ~ In x (snd (nth j splits ([], [])))) /\
    (forall train valid x, In (train, valid) splits ->
       (In x train <-> x < n /\ ~ In x valid)).
Proof.
  intros Hk Hn.
  set (kf := {| n_splits := k; shuffle := sh; random_state := seed |}).
  assert (Hpos : 0 < n_splits kf) by (simpl; lia).
  pose proof (iter_test_indices_concat kf n Hpos) as Hperm.
  assert (Hnd : NoDup (concat (iter_test_indices kf n))).
  { apply (Permutation_NoDup (Permutation_sym Hperm)), seq_NoDup. }
  exists (map (fun test =>
                 (filter (fun i => negb (mem i test)) (seq 0 n),
                  filter (fun i => mem i test) (seq 0 n)))
              (iter_test_indices kf n)).
  split; [|split; [|split; [|split]]].
  - unfold bind, KFold, split.
    destruct (k <=? 1) eqn:E; [apply Nat.leb_le in E; lia|].
    unfold ret. fold kf. change (n_splits kf) with k.
    destruct (n <? k) eqn:E'; [apply Nat.ltb_lt in E'; lia | reflexivity].
  - rewrite length_map. apply (iter_test_indices_length kf n Hpos).
  - rewrite map_map. simpl.
    eapply Permutation_trans; [|exact Hperm].
    apply masks_permutation; [assumption|].
    intros x Hx. apply (Permutation_in _ Hperm), in_seq in Hx. lia.
  - intros i j x Hij Hi Hj.
    rewrite map_nth_snd in Hi, Hj by apply filter_mem_nil.
    apply filter_In in Hi, Hj. destruct Hi as [_ Hi], Hj as [_ Hj].
    apply mem_In in Hi, Hj.
    exact (concat_disjoint _ i j x Hnd Hij Hi Hj).
  - intros train valid x H.
    apply in_map_iff in H. destruct H as (test & Heq & _).
    injection Heq as <- <-.
    rewrite !filter_In, in_seq, negb_true_iff. split.
    + intros [Hs Hm]. split; [lia|]. intros [_ Hv]. congruence.
    + intros [Hlt Hv]. split; [lia|].
      destruct (mem x test) eqn:E; [|reflexivity].
      exfalso. apply Hv. split; [lia | reflexivity].
Qed.

Lemma toy_random_laws : RandomStateLaws toy_random.
Proof. constructor. intros seed n. apply Permutation_refl. Qed.

Lemma kfold_partition_witness :
  exists splits,
    (kf <- @KFold unit 3 true 0 ;; @split toy_random unit kf 10) tt = Ok splits tt /\
    length splits = 3 /\
    Permutation (concat (map snd splits)) (seq 0 10) /\
    (forall i j x, i < j ->
       In x (snd (nth i splits ([], []))) ->
       ~ In x (snd (nth j splits ([], [])))) /\
    (forall train valid x, In (train, valid) splits ->
       (In x train <-> x < 10 /\ ~ In x valid)).
Proof.
  apply (kfold_partition toy_random toy_random_laws unit 3 10 0 true tt); lia.
Defined.

(** ** Reasoning about computations *)

Section Wp.
Context {W : Type}.

Lemma wp_ret {A} (a : A) (w : W) (post : A -> W -> Prop) :
  post a w -> wp (ret a) w post.
Proof. intros H. exact H. Qed.

Lemma wp_bind {A B} (m : M W A) (k : A -> M W B) (w : W) (post : B -> W -> Prop) :
  wp m w (fun a w' => wp (k a) w' post) -> wp (bind m k) w post.
Proof. unfold wp, bind. destruct (m w); [intros H; exact H | intros []]. Qed.

Lemma wp_mono {A} (m : M W A) (w : W) (P Q : A -> W -> Prop) :
  wp m w P -> (forall a w', P a w' -> Q a w') -> wp m w Q.
Proof. unfold wp. destruct (m w); [intros H HPQ; now apply HPQ | intros []]. Qed.

Lemma wp_ok {A} (m : M W A) (w : W) (post : A -> W -> Prop) :
  wp m w post <-> exists a w', m w = Ok a w' /\ post a w'.
Proof.
  unfold wp. destruct (m w) as [a w'|e w'].
  - split; [intros H; now exists a, w' | intros (a' & w'' & Heq & H); congruence].
  - split; [intros [] | intros (a' & w'' & Heq & _); discriminate].
Qed.

(** A collecting loop under an invariant on the results gathered so far. *)
Lemma wp_for_collect {A B} (I : list B -> W -> Prop) (body : A -> M W B) :
  forall (l : list A) (w : W),
    I [] w ->
    (forall x done w', In x l -> I done w' ->
        wp (body x) w' (fun b w'' => I (done ++ [b]) w'')) ->
    wp (for_collect l body) w (fun bs w' => I bs w' /\ length bs = length l).
Proof.
  intros l. revert I. induction l as [|x r IH]; intros I w H0 Hstep; simpl.
  - apply wp_ret. split; [assumption | reflexivity].
  - apply wp_bind. eapply wp_mono; [apply (Hstep x [] w); [now left | assumption]|].
    intros b w' Hb. simpl in Hb. apply wp_bind.
    eapply wp_mono; [apply (IH (fun done => I (b :: done)) w' Hb)|].
    + intros y done w'' Hy Hd. apply (Hstep y (b :: done) w''); [now right | assumption].
    + intros bs w'' [Hbs Hlen]. apply wp_ret. split; [assumption | simpl; now rewrite Hlen].
Qed.

Lemma wp_for_fold {A S} (I : S -> W -> Prop) (body : S -> A -> M W S) :
  forall (l : list A) (acc : S) (w : W),
    I acc w ->
    (forall x acc' w', In x l -> I acc' w' -> wp (body acc' x) w' I) ->
    wp (for_fold l body acc) w I.
Proof.
  induction l as [|x r IH]; intros acc w H0 Hstep; simpl.
  - apply wp_ret. assumption.
  - apply wp_bind. eapply wp_mono; [apply (Hstep x acc w); [now left | assumption]|].
    intros acc' w' H'. apply IH; [assumption|].
    intros y a w'' Hy. apply Hstep. now right.
Qed.
End Wp.

(** ** Loaders *)

Section LoaderFacts.
Context {T : Torch} {TL : TorchLaws T}.

Lemma batched_concat (b : nat) :
  0 < b -> forall fuel l, length l <= fuel -> concat (batched fuel b l) = l.
Proof.
  intros Hb. induction fuel as [|f IH]; intros l Hl.
  - destruct l; [reflexivity | simpl in Hl; lia].
  - destruct l as [|x r]; [reflexivity|].
    cbn [batched concat]. rewrite IH.
    + apply firstn_skipn.
    + rewrite length_skipn. simpl in Hl.
      change (length (x :: r)) with (S (length r)). lia.
Qed.

Lemma loader_batches_eq (loader : DataLoaderT) (w : World) :
  loader_batches loader w =
  Ok (batched (length (fst (drawn_order loader w))) (dl_batch_size loader)
              (fst (drawn_order loader w)))
     (snd (drawn_order loader w)).
Proof.
  unfold loader_batches, drawn_order, bind, call_heap, ret.
  destruct (dl_shuffle loader); [|reflexivity].
  destruct (randperm _ _); reflexivity.
Qed.

Lemma drawn_order_perm (loader : DataLoaderT) (w : World) :
  Permutation (fst (drawn_order loader w)) (seq 0 (subset_len (dl_dataset loader))).
Proof.
  unfold drawn_order. destruct (dl_shuffle loader); simpl;
    [apply randperm_perm | apply Permutation_refl].
Qed.

Lemma drawn_order_log (loader : DataLoaderT) (w : World) :
  log (snd (drawn_order loader w)) = log w /\
  studies (snd (drawn_order loader w)) = studies w.
Proof. unfold drawn_order. destruct (dl_shuffle loader); simpl; split; reflexivity. Qed.

Lemma drawn_batch_in_range (loader : DataLoaderT) (w : World) (idxs : list nat) (i : nat) :
  0 < dl_batch_size loader ->
  In idxs (batched (length (fst (drawn_order loader w))) (dl_batch_size loader)
                   (fst (drawn_order loader w))) ->
  In i idxs -> i < subset_len (dl_dataset loader).
Proof.
  intros Hb Hin Hi.
  assert (Hc : In i (concat (batched (length (fst (drawn_order loader w)))
                                     (dl_batch_size loader)
                                     (fst (drawn_order loader w))))).
  { apply in_concat. now exists idxs. }
  rewrite batched_concat in Hc; [| assumption | apply Nat.le_refl].
  apply (Permutation_in _ (drawn_order_perm loader w)), in_seq in Hc. lia.
Qed.

Lemma subset_getitem_ok (s : SubsetT) (i : nat) (w : World) :
  Forall (fun j => j < length (sub_dataset s)) (sub_indices s) ->
  i < subset_len s ->
  exists g, subset_getitem s i w = Ok g w.
Proof.
  intros Hv Hi. unfold subset_getitem, subset_len in *.
  destruct (nth_error (sub_indices s) i) as [j|] eqn:Ej.
  - assert (Hj : j < length (sub_dataset s)).
    { rewrite Forall_forall in Hv. apply Hv. eapply nth_error_In; eassumption. }
    destruct (nth_error (sub_dataset s) j) as [g|] eqn:Eg.
    + now exists g.
    + apply nth_error_None in Eg. lia.
  - apply nth_error_None in Ej. lia.
Qed.

Lemma fetch_ok (loader : DataLoaderT) (idxs : list nat) (w : World) :
  loader_ok loader ->
  (forall i, In i idxs -> i < subset_len (dl_dataset loader)) ->
  exists data, fetch loader idxs w = Ok data w /\ length data = length idxs.
Proof.
  intros [_ Hv]. unfold fetch.
  induction idxs as [|i r IH]; intros Hr.
  - exists []. split; reflexivity.
  - destruct (subset_getitem_ok (dl_dataset loader) i w Hv) as [g Hg];
      [apply Hr; now left|].
    destruct IH as (data & Hd & Hl); [intros j Hj; apply Hr; now right|].
    exists (g :: data). split; [|simpl; now rewrite Hl].
    simpl. unfold bind. rewrite Hg, Hd. reflexivity.
Qed.
End LoaderFacts.

(** ** The epoch trainer *)

Lemma fold_left_Qplus_acc (l : list Q) (a : Q) :
  (fold_left Qplus l a == a + fold_left Qplus l 0)%Q.
Proof.
  revert a. induction l as [|x l IH]; intros a; simpl.
  - ring.
  - rewrite (IH (a + x)%Q), (IH (0 + x)%Q). ring.
Qed.

Lemma Qsum_cons (x : Q) (l : list Q) : (Qsum (x :: l) == x + Qsum l)%Q.
Proof. unfold Qsum. simpl. rewrite fold_left_Qplus_acc. ring. Qed.

Lemma list_sum_map_length (bs : list (list nat)) :
  list_sum (map (@length nat) bs) = length (concat bs).
Proof.
  induction bs as [|b bs IH]; simpl; [reflexivity|].
  rewrite length_app, IH. reflexivity.
Qed.

Section TrainerFacts.
Context {T : Torch} {TL : TorchLaws T}.

(** The training loop and the recording loop go through the same worlds;
    the accumulators of the first are the sums over the record of the
    second. *)
Lemma train_loop_trace (loader : DataLoaderT) (optimizer : Optimizer) (loss_fn : LossFn) :
  loader_ok loader ->
  forall batches running_loss num_data w,
    (forall idxs i, In idxs batches -> In i idxs -> i < subset_len (dl_dataset loader)) ->
    exists trace running_loss' w',
      for_collect batches
        (fun idxs =>
           data <- fetch loader idxs ;;
           on_heap (zero_grad optimizer) ;;
           pred <- call_heap (forward data) ;;
           on_heap (backward loss_fn data) ;;
           on_heap (step optimizer) ;;
           ret (loss_fn pred (map graph_y data), length data)) w = Ok trace w' /\
      for_fold batches
        (fun '(running_loss, num_data) idxs =>
           data <- fetch loader idxs ;;
           on_heap (zero_grad optimizer) ;;
           pred <- call_heap (forward data) ;;
           let loss := loss_fn pred (map graph_y data) in
           on_heap (backward loss_fn data) ;;
           on_heap (step optimizer) ;;
           ret ((running_loss + loss * Qnat (length data))%Q, num_data + length data))
        (running_loss, num_data) w
      = Ok (running_loss', num_data + list_sum (map snd trace)) w' /\
      (running_loss' == running_loss
                        + Qsum (map (fun b => fst b * Qnat (snd b)) trace))%Q /\
      map snd trace = map (@length nat) batches /\
      log w' = log w /\ studies w' = studies w.
Proof.
  intros Hok.
  match goal with
  | |- forall batches r n w, _ ->
         exists trace r' w', for_collect _ ?b w = _ /\ for_fold _ ?f _ w = _ /\ _ =>
      set (record := b); set (accumulate := f)
  end.
  induction batches as [|idxs batches IH]; intros r n w Hr.
  - exists [], r, w. simpl. unfold ret.
    repeat split; try reflexivity.
    + now rewrite Nat.add_0_r.
    + unfold Qsum. simpl. ring.
  - destruct (fetch_ok loader idxs w Hok) as (data & Hf & Hl).
    { intros i Hi. apply (Hr idxs i); [now left | assumption]. }
    destruct (forward data (zero_grad optimizer (heap w))) as [pred h] eqn:Ef.
    set (w1 := {| heap := step optimizer (backward loss_fn data h);
                  log := log w; studies := studies w |}).
    assert (Hrec : record idxs w = Ok (loss_fn pred (map graph_y data), length data) w1).
    { unfold record, bind. rewrite Hf.
      unfold on_heap, modify, call_heap, ret. cbn [heap log studies].
      rewrite Ef. reflexivity. }
    assert (Hacc : accumulate (r, n) idxs w
                   = Ok ((r + loss_fn pred (map graph_y data) * Qnat (length data))%Q,
                         n + length data) w1).
    { unfold accumulate, bind. rewrite Hf.
      unfold on_heap, modify, call_heap, ret. cbn [heap log studies].
      rewrite Ef. reflexivity. }
    destruct (IH (r + loss_fn pred (map graph_y data) * Qnat (length data))%Q
                 (n + length data) w1) as (trace & r' & w' & Hc & Hfold & Hq & Hm & Hlog & Hst).
    { intros idxs' i Hin Hi. apply (Hr idxs' i); [now right | assumption]. }
    exists ((loss_fn pred (map graph_y data), length data) :: trace), r', w'.
    split; [|split; [|split; [|split; [|split]]]].
    + cbn [for_collect]. unfold bind. rewrite Hrec, Hc. reflexivity.
    + cbn [for_fold]. unfold bind. rewrite Hacc, Hfold.
      replace (n + list_sum (map snd ((loss_fn pred (map graph_y data), length data) :: trace)))
        with (n + length data + list_sum (map snd trace)) by (simpl; lia).
      reflexivity.
    + rewrite Hq. cbn [map fst snd]. rewrite Qsum_cons. ring.
    + cbn [map snd]. now rewrite Hm, Hl.
    + exact Hlog.
    + exact Hst.
Qed.

(** One epoch over a non-empty, well-formed loader returns the weighted
    mean of the per-batch losses it goes through. *)
Lemma train_one_epoch_ok (loader : DataLoaderT) (optimizer : Optimizer)
      (loss_fn : LossFn) (w : World) :
  loader_ok loader -> 0 < subset_len (dl_dataset loader) ->
  exists loss_ep trace w',
    train_one_epoch loader optimizer loss_fn w = Ok loss_ep w' /\
    batch_losses loader optimizer loss_fn w = Ok trace w' /\
    (loss_ep == weighted_mean trace)%Q /\
    list_sum (map snd trace) = subset_len (dl_dataset loader) /\
    log w' = log w /\ studies w' = studies w.
Proof.
  intros Hok Hn.
  pose proof (loader_batches_eq loader w) as Hb.
  pose proof (drawn_order_log loader w) as [Hlog0 Hst0].
  set (batches := batched (length (fst (drawn_order loader w))) (dl_batch_size loader)
                          (fst (drawn_order loader w))) in *.
  set (w0 := snd (drawn_order loader w)) in *.
  destruct (train_loop_trace loader optimizer loss_fn Hok batches 0%Q 0 w0)
    as (trace & r' & w' & Hc & Hfold & Hq & Hm & Hlog & Hst).
  { intros idxs i Hin Hi.
    apply (drawn_batch_in_range loader w idxs i); [apply Hok | exact Hin | exact Hi]. }
  assert (Hsum : list_sum (map snd trace) = subset_len (dl_dataset loader)).
  { rewrite Hm, list_sum_map_length. unfold batches.
    rewrite batched_concat; [| apply Hok | apply Nat.le_refl].
    rewrite (Permutation_length (drawn_order_perm loader w)). apply length_seq. }
  exists (r' / Qnat (list_sum (map snd trace)))%Q, trace, w'.
  split; [|split; [|split; [|split; [|split]]]].
  - unfold train_one_epoch, bind at 1. rewrite Hb. cbv beta iota zeta.
    cbv beta zeta in Hfold. unfold bind at 1. rewrite Hfold. cbn [Nat.add].
    destruct (list_sum (map snd trace) =? 0) eqn:E; [|reflexivity].
    apply Nat.eqb_eq in E. lia.
  - unfold batch_losses, bind at 1. rewrite Hb. exact Hc.
  - unfold weighted_mean. rewrite Hq. apply Qdiv_comp; [ring | reflexivity].
  - exact Hsum.
  - congruence.
  - congruence.
Qed.
End TrainerFacts.

Lemma toy_torch_laws : TorchLaws toy_torch.
Proof.
  constructor.
  - intros n h. apply Permutation_refl.
  - intros b h. simpl. apply length_map.
Qed.

(** C5 (amended). For every non-empty, well-formed batched training set,
    [train_one_epoch] returns the sample-count-weighted mean of the
    per-batch losses of the epoch: the sum over batches of loss times batch
    sample count, divided by the total sample count, which is the size of
    the training set.  That value can differ from the plain average of the
    per-batch losses when batch sizes are unequal: for batches of sizes
    4, 4, 2 with losses 1, 1, 2 it does. *)
Theorem train_one_epoch_weighted_mean (T : Torch) (TL : TorchLaws T)
        (loader : DataLoaderT) (optimizer : Optimizer) (loss_fn : LossFn) (w : World) :
  loader_ok loader -> 0 < subset_len (dl_dataset loader) ->
  (exists loss_ep trace w',
      train_one_epoch loader optimizer loss_fn w = Ok loss_ep w' /\
      batch_losses loader optimizer loss_fn w = Ok trace w' /\
      (loss_ep == weighted_mean trace)%Q /\
      list_sum (map snd trace) = subset_len (dl_dataset loader)) /\
  ~ (weighted_mean unequal_batches == naive_mean unequal_batches)%Q.
Proof.
  intros Hok Hn. split.
  - destruct (train_one_epoch_ok loader optimizer loss_fn w Hok Hn)
      as (l & trace & w' & H1 & H2 & H3 & H4 & _).
    exists l, trace, w'. repeat split; assumption.
  - vm_compute. discriminate.
Qed.

Lemma train_one_epoch_weighted_mean_witness :
  (exists loss_ep trace w',
      @train_one_epoch toy_torch (toy_loader (toy_dataset 10) 4) (1 # 100) mse_loss
                       (toy_world 0) = Ok loss_ep w' /\
      @batch_losses toy_torch (toy_loader (toy_dataset 10) 4) (1 # 100) mse_loss
                    (toy_world 0) = Ok trace w' /\
      (loss_ep == weighted_mean trace)%Q /\
      list_sum (map snd trace) = 10) /\
  ~ (weighted_mean unequal_batches == naive_mean unequal_batches)%Q.
Proof.
  apply (train_one_epoch_weighted_mean toy_torch toy_torch_laws
           (toy_loader (toy_dataset 10) 4) (1 # 100) mse_loss (toy_world 0)).
  - split; [vm_compute; lia | vm_compute; repeat constructor].
  - vm_compute. lia.
Defined.

(** C5 as stated fails: with a model that predicts every target exactly,
    ten samples in batches of four give batch sizes 4, 4, 2, every batch loss
    is zero, and the weighted mean returned equals the plain average. *)
Lemma weighted_mean_equals_naive_on_equal_losses :
  exists loss_ep trace w',
    @train_one_epoch toy_torch (toy_loader (toy_dataset 10) 4) (1 # 100) mse_loss
                     (toy_world 1) = Ok loss_ep w' /\
    @batch_losses toy_torch (toy_loader (toy_dataset 10) 4) (1 # 100) mse_loss
                  (toy_world 1) = Ok trace w' /\
    map snd trace = [4; 4; 2] /\
    (loss_ep == naive_mean trace)%Q.
Proof.
  eexists. eexists. eexists.
  split; [vm_compute; reflexivity|].
  split; [vm_compute; reflexivity|].
  split; [reflexivity | vm_compute; reflexivity].
Qed.

(** ** Zero samples *)

Section ZeroSamples.
Context {T : Torch} {TL : TorchLaws T}.

Lemma drawn_order_empty (loader : DataLoaderT) (w : World) :
  subset_len (dl_dataset loader) = 0 -> fst (drawn_order loader w) = [].
Proof.
  intros H0. pose proof (drawn_order_perm loader w) as Hp.
  rewrite H0 in Hp. simpl in Hp. apply Permutation_sym in Hp.
  now apply Permutation_nil in Hp.
Qed.

Lemma loader_batches_empty (loader : DataLoaderT) (w : World) :
  subset_len (dl_dataset loader) = 0 ->
  loader_batches loader w = Ok [] (snd (drawn_order loader w)).
Proof.
  intros H0. rewrite loader_batches_eq, (drawn_order_empty loader w H0). reflexivity.
Qed.
End ZeroSamples.

(** C7 as stated fails: the division is not guarded.  On a batched dataset
    without samples the trainer and the evaluator reach it and raise
    [ZeroDivisionError]. *)
Lemma empty_loader_divides_by_zero :
  @train_one_epoch toy_torch (toy_loader [] 32) (1 # 100) mse_loss (toy_world 0)
  = Raise ZeroDivisionError (toy_world 0) /\
  @validate toy_torch (toy_loader [] 32) mse_loss (toy_world 0)
  = Raise ZeroDivisionError (toy_world 0).
Proof. split; vm_compute; reflexivity. Qed.

(** ** The evaluators keep the parameters *)

Section Frame.
Context {T : Torch} {F : InferenceFrame T}.

Lemma keeps_ret {A} (a : A) : keeps_parameters (ret a).
Proof. intros w. reflexivity. Qed.

Lemma keeps_raise {A} (e : exn) : keeps_parameters (@raise World A e).
Proof. intros w. reflexivity. Qed.

Lemma keeps_bind {A B} (m : M World A) (k : A -> M World B) :
  keeps_parameters m -> (forall a, keeps_parameters (k a)) ->
  keeps_parameters (bind m k).
Proof.
  intros Hm Hk w. unfold bind. specialize (Hm w).
  destruct (m w) as [a w'|e w']; simpl in Hm.
  - rewrite <- Hm. apply Hk.
  - exact Hm.
Qed.

Lemma keeps_for_collect {A B} (l : list A) (body : A -> M World B) :
  (forall x, keeps_parameters (body x)) -> keeps_parameters (for_collect l body).
Proof.
  intros Hb. induction l as [|x r IH]; simpl.
  - apply keeps_ret.
  - apply keeps_bind; [apply Hb|]. intros b.
    apply keeps_bind; [apply IH|]. intros bs. apply keeps_ret.
Qed.

Lemma keeps_for_fold {A S} (l : list A) (body : S -> A -> M World S) (acc : S) :
  (forall s x, keeps_parameters (body s x)) -> keeps_parameters (for_fold l body acc).
Proof.
  intros Hb. revert acc. induction l as [|x r IH]; intros acc; simpl.
  - apply keeps_ret.
  - apply keeps_bind; [apply Hb | intros s; apply IH].
Qed.

Lemma keeps_on_heap (f : Heap -> Heap) :
  (forall h, parameters (f h) = parameters h) -> keeps_parameters (on_heap f).
Proof. intros Hf w. simpl. apply Hf. Qed.

Lemma keeps_call_heap {A} (f : Heap -> A * Heap) :
  (forall h, parameters (snd (f h)) = parameters h) -> keeps_parameters (call_heap f).
Proof.
  intros Hf w. unfold call_heap. specialize (Hf (heap w)).
  destruct (f (heap w)) as [a h]. exact Hf.
Qed.

Lemma keeps_logger_info (r : LogRecord) : keeps_parameters (logger_info r).
Proof. intros w. reflexivity. Qed.

Lemma keeps_no_grad {A} (m : M World A) :
  keeps_parameters m -> keeps_parameters (no_grad m).
Proof.
  intros Hm w. unfold no_grad, finally, bind, on_heap, modify.
  match goal with |- context [m ?w1] => specialize (Hm w1); destruct (m w1) end;
    simpl in *; now rewrite set_grad_parameters, Hm, set_grad_parameters.
Qed.

Lemma keeps_subset_getitem (s : SubsetT) (i : nat) : keeps_parameters (subset_getitem s i).
Proof.
  unfold subset_getitem.
  destruct (nth_error (sub_indices s) i); [|apply keeps_raise].
  destruct (nth_error (sub_dataset s) n); [apply keeps_ret | apply keeps_raise].
Qed.

Lemma keeps_fetch (loader : DataLoaderT) (idxs : list nat) :
  keeps_parameters (fetch loader idxs).
Proof. apply keeps_for_collect. intros x. apply keeps_subset_getitem. Qed.

Lemma keeps_loader_batches (loader : DataLoaderT) : keeps_parameters (loader_batches loader).
Proof.
  unfold loader_batches. apply keeps_bind.
  - destruct (dl_shuffle loader); [|apply keeps_ret].
    apply keeps_call_heap. intros h. apply randperm_parameters.
  - intros order. apply keeps_ret.
Qed.

Lemma keeps_mean_squared_error (y_true y_pred : list Q) :
  keeps_parameters (mean_squared_error y_true y_pred).
Proof.
  unfold mean_squared_error.
  destruct (negb _); [apply keeps_raise|].
  destruct (_ =? 0); [apply keeps_raise | apply keeps_ret].
Qed.

Lemma keeps_validate (loader : DataLoaderT) (loss_fn : LossFn) :
  keeps_parameters (validate loader loss_fn).
Proof.
  unfold validate. apply keeps_no_grad.
  apply keeps_bind; [apply keeps_on_heap, model_eval_parameters | intros _].
  apply keeps_bind; [apply keeps_loader_batches | intros batches].
  apply keeps_bind.
  - apply keeps_for_fold. intros [valid_loss num_data] idxs.
    apply keeps_bind; [apply keeps_fetch | intros data].
    apply keeps_bind; [apply keeps_call_heap, forward_parameters | intros pred].
    apply keeps_ret.
  - intros [valid_loss num_data].
    destruct (num_data =? 0); [apply keeps_raise | apply keeps_ret].
Qed.

Lemma keeps_test (loader : DataLoaderT) (loss_fn : LossFn) :
  keeps_parameters (test loader loss_fn).
Proof.
  unfold test. apply keeps_no_grad.
  apply keeps_bind; [apply keeps_on_heap, model_eval_parameters | intros _].
  apply keeps_bind; [apply keeps_loader_batches | intros batches].
  apply keeps_bind.
  - apply keeps_for_collect. intros idxs.
    apply keeps_bind; [apply keeps_fetch | intros data].
    apply keeps_bind; [apply keeps_call_heap, forward_parameters | intros pred].
    apply keeps_bind; [|intros c; apply keeps_ret].
    unfold cat_dim1. destruct (_ =? _); [apply keeps_ret | apply keeps_raise].
  - intros output. apply keeps_bind.
    { unfold cat_dim0. destruct output; [apply keeps_raise | apply keeps_ret]. }
    intros stacked. apply keeps_bind.
    { unfold tensor_getitem. destruct (nth_error stacked 1);
        [apply keeps_ret | apply keeps_raise]. }
    intros y_true. apply keeps_bind.
    { unfold tensor_getitem. destruct (nth_error stacked 0);
        [apply keeps_ret | apply keeps_raise]. }
    intros y_pred. apply keeps_bind; [apply keeps_mean_squared_error | intros v].
    apply keeps_bind; [apply keeps_logger_info | intros _; apply keeps_ret].
Qed.
End Frame.

(** C8. Whatever the model state, the loader and the loss function, and
    whether the call returns or raises, the learnable parameters after
    [validate] and after [test] are the parameters before the call, given
    that the operations of the torch contract that the evaluators call (the
    forward pass, [model.eval()], switching gradient mode and drawing a
    sampler permutation) assign no parameter. *)
Theorem evaluators_keep_parameters (T : Torch) (F : InferenceFrame T)
        (loader : DataLoaderT) (loss_fn : LossFn) (w : World) :
  parameters (heap (final_world (validate loader loss_fn w))) = parameters (heap w) /\
  parameters (heap (final_world (test loader loss_fn w))) = parameters (heap w).
Proof. split; [apply keeps_validate | apply keeps_test]. Qed.

Lemma toy_inference_frame : InferenceFrame toy_torch.
Proof. constructor; intros; reflexivity. Qed.

Lemma evaluators_keep_parameters_witness :
  parameters (heap (final_world
    (@validate toy_torch (toy_loader (toy_dataset 5) 2) mse_loss (toy_world (1 # 2)))))
  = parameters (heap (toy_world (1 # 2))) /\
  parameters (heap (final_world
    (@test toy_torch (toy_loader (toy_dataset 5) 2) mse_loss (toy_world (1 # 2)))))
  = parameters (heap (toy_world (1 # 2))).
Proof.
  exact (evaluators_keep_parameters toy_torch toy_inference_frame
           (toy_loader (toy_dataset 5) 2) mse_loss (toy_world (1 # 2))).
Defined.

(** ** The test metric *)

(** C2 (the code departs from the claim). Three graphs whose targets the
    model predicts exactly: the mean squared error between the concatenated
    predictions and the concatenated targets is [0], yet [test] returns [1],
    the mean squared error between row 1, [(pred_1, y_1)], and row 0,
    [(pred_0, y_0)], of the stacked output. *)
Theorem test_compares_two_rows :
  exists v w',
    @test toy_torch (toy_loader (toy_dataset 3) 32) mse_loss (toy_world 1) = Ok v w' /\
    (v == 1)%Q /\
    (mse (map graph_y (toy_dataset 3))
         (fst (toy_forward (toy_dataset 3) (toy_heap 1))) == 0)%Q.
Proof.
  eexists. eexists. split; [vm_compute; reflexivity|].
  split; vm_compute; reflexivity.
Qed.

(** ** The inner folds and the pool *)

(** C1 (the code departs from the claim). Six graphs; the pool is the
    outer train-subset [2, 3, 4, 5].  The inner folds index the global
    dataset with positions of the pool, so the objective trains and validates
    on graph 0, which the pool does not hold, and never sees graph 5, which
    the pool holds. *)
Theorem inner_folds_leave_pool :
  exists r w',
    @cv_objective toy_torch toy_random toy_optuna (toy_dataset 6) (fresh_trial 0 0) 2
                  (@Subset toy_torch (toy_dataset 6) [2; 3; 4; 5]) mse_loss 1
                  (toy_world 0) = Ok r w' /\
    In 0 (seen (heap w')) /\
    ~ In 0 (map gid (@subset_items toy_torch
                       (@Subset toy_torch (toy_dataset 6) [2; 3; 4; 5]))) /\
    ~ In 5 (seen (heap w')) /\
    In 5 (map gid (@subset_items toy_torch
                     (@Subset toy_torch (toy_dataset 6) [2; 3; 4; 5]))).
Proof.
  eexists. eexists. split; [vm_compute; reflexivity|].
  split; [simpl; tauto|].
  split; [vm_compute; intuition discriminate|].
  split; [vm_compute; intuition discriminate|].
  vm_compute. tauto.
Qed.

(** ** The search budget *)

(** C4 (the code departs from the claim). With [n_trials = 1] in the
    configuration and three outer folds the objective is called six times,
    twice per outer fold: [study.optimize] is given the literal 2. *)
Theorem search_runs_two_trials :
  exists w',
    @nested_cv_experiment toy_torch toy_random toy_optuna (toy_config 6 3 2 1 32)
                          (toy_world 0) = Ok None w' /\
    cfg_n_trials (toy_config 6 3 2 1 32) = 1 /\
    objective_calls (log w') = 6.
Proof.
  eexists. split; [vm_compute; reflexivity|].
  split; reflexivity.
Qed.

(** ** The configured batch size *)

(** C10. Two configurations that agree on every field but [batch_size] run
    the same experiment: from every world, the same result and the same final
    world (model, log and all).  Every loader is built with the literal 32. *)
Theorem batch_size_is_ignored (T : Torch) (R : RandomState) (O : Optuna)
        (c1 c2 : Config) (w : World) :
  set_batch_size 0 c1 = set_batch_size 0 c2 ->
  nested_cv_experiment c1 w = nested_cv_experiment c2 w.
Proof.
  destruct c1, c2. unfold set_batch_size. simpl.
  intros H. injection H as -> -> -> -> -> -> -> -> ->. reflexivity.
Qed.

Lemma batch_size_is_ignored_witness :
  @nested_cv_experiment toy_torch toy_random toy_optuna (toy_config 6 3 2 2 1)
                        (toy_world 0)
  = @nested_cv_experiment toy_torch toy_random toy_optuna (toy_config 6 3 2 2 64)
                          (toy_world 0).
Proof.
  apply (batch_size_is_ignored toy_torch toy_random toy_optuna
           (toy_config 6 3 2 2 1) (toy_config 6 3 2 2 64) (toy_world 0)).
  reflexivity.
Defined.

(** ** The dataset adapter reads the first file for every path *)

Section ProcessFacts.
Variable Mol : Type.
Variable from_smiles : string -> Mol.

Abbreviation Dir := (ProcessedDir Mol).

Lemma written_nil (idx : nat) (d : Dir) (j : nat) : written idx [] d j = d j.
Proof.
  unfold written. simpl.
  destruct (idx <=? j) eqn:E1; destruct (j <? idx + 0) eqn:E2; simpl; try reflexivity.
  apply Nat.leb_le in E1. apply Nat.ltb_lt in E2. lia.
Qed.

Lemma written_app (idx : nat) (gs hs : list (Data Mol)) (d : Dir) (j : nat) :
  written (idx + length gs) hs (written idx gs d) j = written idx (gs ++ hs) d j.
Proof.
  unfold written. rewrite length_app.
  destruct (idx <=? j) eqn:E1; destruct (j <? idx + length gs) eqn:E2;
    destruct (idx + length gs <=? j) eqn:E3;
    destruct (j <? idx + length gs + length hs) eqn:E4;
    destruct (j <? idx + (length gs + length hs)) eqn:E5;
    repeat match goal with
           | H : (_ <=? _) = true |- _ => apply Nat.leb_le in H
           | H : (_ <=? _) = false |- _ => apply Nat.leb_gt in H
           | H : (_ <? _) = true |- _ => apply Nat.ltb_lt in H
           | H : (_ <? _) = false |- _ => apply Nat.ltb_ge in H
           end; cbn [andb]; try lia; try reflexivity.
  - rewrite nth_error_app1 by lia. reflexivity.
  - rewrite nth_error_app2 by lia. f_equal. lia.
Qed.

Lemma written_ext (idx : nat) (gs : list (Data Mol)) (d1 d2 : Dir) (j : nat) :
  (forall i, d1 i = d2 i) -> written idx gs d1 j = written idx gs d2 j.
Proof. intros H. unfold written. now rewrite H. Qed.

Lemma written_one (idx : nat) (g : Data Mol) (d : Dir) (j : nat) :
  written idx [g] d j = if j =? idx then Some g else d j.
Proof.
  unfold written. simpl length.
  destruct (j =? idx) eqn:E.
  - apply Nat.eqb_eq in E. subst j. rewrite Nat.leb_refl, Nat.sub_diag.
    destruct (idx <? idx + 1) eqn:E'; [reflexivity | apply Nat.ltb_ge in E'; lia].
  - apply Nat.eqb_neq in E.
    destruct (idx <=? j) eqn:E1; destruct (j <? idx + 1) eqn:E2; simpl; try reflexivity.
    apply Nat.leb_le in E1. apply Nat.ltb_lt in E2. lia.
Qed.

(** The rows from position [length pre] on are saved from [idx] on. *)
Lemma save_rows (df pre rest : DataFrame) :
  df = pre ++ rest ->
  forall (idx : nat) (d : Dir),
  exists d',
    for_fold (combine (seq (length pre) (length rest)) (map fst rest))
      (fun idx '(i, smile) =>
         let g := from_smiles smile in
         y <- series_getitem Mol (map snd df) i ;;
         let g := {| mol := g; data_y := y |} in
         torch_save Mol g idx ;;
         ret (idx + 1))
      idx d = Ok (idx + length rest) d' /\
    forall j, d' j = written idx (graphs_of Mol from_smiles rest) d j.
Proof.
  match goal with
  | |- _ -> forall idx d, exists d', for_fold _ ?b idx d = _ /\ _ => set (save := b)
  end.
  revert pre. induction rest as [|[smile y] rest IH]; intros pre Hdf idx d.
  - exists d. split; [simpl; unfold ret; now rewrite Nat.add_0_r|].
    intros j. now rewrite written_nil.
  - assert (Hy : nth_error (map snd df) (length pre) = Some y).
    { rewrite Hdf, map_app, nth_error_app2 by (rewrite length_map; lia).
      rewrite length_map, Nat.sub_diag. reflexivity. }
    set (d1 := fun j => if j =? idx
                        then Some {| mol := from_smiles smile; data_y := y |}
                        else d j).
    assert (Hstep : save idx (length pre, smile) d = Ok (idx + 1) d1).
    { unfold save, bind, series_getitem. rewrite Hy. reflexivity. }
    destruct (IH (pre ++ [(smile, y)])
                 ltac:(rewrite Hdf, <- app_assoc; reflexivity) (idx + 1) d1)
      as (d' & Hrun & Hd').
    rewrite length_app in Hrun. simpl length in Hrun.
    replace (length pre + 1) with (S (length pre)) in Hrun by lia.
    exists d'. split.
    + cbn [length seq map fst combine for_fold].
      unfold bind. rewrite Hstep, Hrun. f_equal. lia.
    + intros j. rewrite Hd'.
      change (graphs_of Mol from_smiles ((smile, y) :: rest))
        with ([{| mol := from_smiles smile; data_y := y |}]
                ++ graphs_of Mol from_smiles rest).
      rewrite <- written_app. simpl length.
      apply written_ext. intros i. unfold d1. now rewrite written_one.
Qed.

Lemma graphs_of_length (df : DataFrame) : length (graphs_of Mol from_smiles df) = length df.
Proof. unfold graphs_of. apply length_map. Qed.

(** Every pass of the outer loop saves the graphs of the first file. *)
Lemma process_loop (fs : RawFiles) (raw_paths : list string) (p0 : string)
      (df0 : DataFrame) :
  nth_error raw_paths 0 = Some p0 -> fs p0 = Some df0 ->
  forall (remaining : list string) (idx : nat) (d : Dir),
  exists d',
    for_fold remaining
      (fun idx raw_path =>
         first_path <- list_getitem Mol raw_paths 0 ;;
         df <- read_csv Mol fs first_path ;;
         for_fold (enumerate (map fst df))
           (fun idx '(i, smile) =>
              let g := from_smiles smile in
              y <- series_getitem Mol (map snd df) i ;;
              let g := {| mol := g; data_y := y |} in
              torch_save Mol g idx ;;
              ret (idx + 1))
           idx)
      idx d = Ok (idx + length remaining * length df0) d' /\
    forall j, d' j = written idx (concat (repeat (graphs_of Mol from_smiles df0)
                                                 (length remaining))) d j.
Proof.
  intros Hp0 Hfs.
  match goal with
  | |- forall remaining idx d, exists d', for_fold _ ?b idx d = _ /\ _ => set (pass := b)
  end.
  assert (Hpass : forall idx d, exists d1,
             pass idx p0 d = Ok (idx + length df0) d1 /\
             forall j, d1 j = written idx (graphs_of Mol from_smiles df0) d j).
  { intros idx d.
    destruct (save_rows df0 [] df0 eq_refl idx d) as (d1 & Hrun & Hd1).
    exists d1. split; [|exact Hd1].
    unfold pass, bind, list_getitem, read_csv. rewrite Hp0. unfold ret. rewrite Hfs.
    unfold enumerate. rewrite length_map. exact Hrun. }
  assert (Hany : forall p idx d, pass idx p d = pass idx p0 d) by reflexivity.
  induction remaining as [|p remaining IH]; intros idx d.
  - exists d. split; [simpl; unfold ret; now rewrite Nat.add_0_r|].
    intros j. simpl. now rewrite written_nil.
  - destruct (Hpass idx d) as (d1 & Hrun1 & Hd1).
    destruct (IH (idx + length df0) d1) as (d' & Hrun & Hd').
    exists d'. split.
    + cbn [for_fold]. unfold bind. rewrite Hany, Hrun1, Hrun. f_equal. simpl. lia.
    + intros j. rewrite Hd'. cbn [length repeat concat].
      rewrite <- written_app, graphs_of_length.
      apply written_ext. exact Hd1.
Qed.
End ProcessFacts.

(** C9. With two or more raw files of which the first can be read,
    [process] succeeds and the processed directory holds, from index 0 on,
    as many copies of the graphs of the first file as there are raw paths,
    and is otherwise unchanged.  Nothing is asked of the other files: the
    result is determined by the rows of the first one, so no row of a later
    file is converted. *)
Theorem process_repeats_first_file (Mol : Type) (from_smiles : string -> Mol)
        (fs : RawFiles) (p0 p1 : string) (rest : list string) (df0 : DataFrame)
        (d : ProcessedDir Mol) :
  fs p0 = Some df0 ->
  exists d',
    process Mol from_smiles fs (p0 :: p1 :: rest) d = Ok tt d' /\
    forall j,
      d' j = written 0 (concat (repeat (graphs_of Mol from_smiles df0)
                                       (length (p0 :: p1 :: rest)))) d j.
Proof.
  intros Hfs.
  destruct (process_loop Mol from_smiles fs (p0 :: p1 :: rest) p0 df0 eq_refl Hfs
                         (p0 :: p1 :: rest) 0 d) as (d' & Hrun & Hd').
  exists d'. split; [|exact Hd'].
  unfold process, bind in *. rewrite Hrun. reflexivity.
Qed.

Lemma process_repeats_first_file_witness :
  exists d',
    process string (fun s => s) toy_files ["a.csv"%string; "b.csv"%string] empty_dir = Ok tt d' /\
    forall j,
      d' j = written 0 (concat (repeat (graphs_of string (fun s => s) [("C"%string, 1%Q)]) 2))
                     empty_dir j.
Proof.
  apply (process_repeats_first_file string (fun s => s) toy_files
           "a.csv"%string "b.csv"%string [] [("C"%string, 1%Q)] empty_dir).
  reflexivity.
Defined.

(** The two-file run, index by index: two copies of the only row of
    [a.csv], and nothing of [b.csv]. *)
Example process_two_files :
  exists d',
    process string (fun s => s) toy_files ["a.csv"%string; "b.csv"%string] empty_dir = Ok tt d' /\
    d' 0 = Some {| mol := "C"%string; data_y := 1%Q |} /\
    d' 1 = Some {| mol := "C"%string; data_y := 1%Q |} /\
    d' 2 = None.
Proof. eexists. split; [vm_compute; reflexivity|]. repeat split. Qed.

(** ** The experiment runs to its end *)

Lemma test_metrics_app (l1 l2 : list LogRecord) :
  test_metrics (l1 ++ l2) = test_metrics l1 ++ test_metrics l2.
Proof.
  induction l1 as [|r l1 IH]; simpl; [reflexivity|].
  destruct r; simpl; now rewrite ?IH.
Qed.

Section SplitSizes.
Context {R : RandomState} {RL : RandomStateLaws R}.

Lemma filter_partition_length (f : nat -> bool) (l : list nat) :
  length (filter (fun i => negb (f i)) l) + length (filter f l) = length l.
Proof.
  induction l as [|a l IH]; simpl; [reflexivity|].
  destruct (f a); simpl; lia.
Qed.

Lemma Forall2_In_l {A B} (P : A -> B -> Prop) (l : list A) (l' : list B) (x : A) :
  Forall2 P l l' -> In x l -> exists y, In y l' /\ P x y.
Proof.
  intros H. induction H as [|a b l l' Hab _ IH]; intros Hin; [contradiction|].
  destruct Hin as [<- | Hin].
  - exists b. split; [now left | assumption].
  - destruct (IH Hin) as (y & Hy & Hp). exists y. split; [now right | assumption].
Qed.

Lemma fold_size_cases (k n s : nat) :
  In s (fold_sizes k n) -> s = n / k \/ (s = n / k + 1 /\ 0 < n mod k).
Proof.
  unfold fold_sizes. intros H. apply in_app_or in H. destruct H as [H | H].
  - right. split; [now apply repeat_spec in H|].
    destruct (n mod k); [contradiction | lia].
  - left. now apply repeat_spec in H.
Qed.

Lemma wp_KFold {W : Type} (k seed : nat) (sh : bool) (w : W)
      (post : KFoldT -> W -> Prop) :
  2 <= k ->
  post {| n_splits := k; shuffle := sh; random_state := seed |} w ->
  wp (KFold k sh seed) w post.
Proof.
  intros Hk H. unfold wp, KFold.
  destruct (k <=? 1) eqn:E; [apply Nat.leb_le in E; lia | exact H].
Qed.

(** An accepted split: every index is in range, no side is empty, the
    two sides add up to [n], and the test side has the floor of [n / k]
    samples or one more. *)
Lemma split_ok {W : Type} (kf : KFoldT) (n : nat) (w : W) :
  2 <= n_splits kf -> n_splits kf <= n ->
  wp (split kf n) w
     (fun splits w' =>
        w' = w /\ length splits = n_splits kf /\
        forall train test, In (train, test) splits ->
          Forall (fun i => i < n) train /\ Forall (fun i => i < n) test /\
          length train + length test = n /\
          n / n_splits kf <= length test <= n / n_splits kf + 1 /\
          0 < length train /\ 0 < length test).
Proof.
  intros Hk Hn.
  assert (Hpos : 0 < n_splits kf) by lia.
  pose proof (iter_test_indices_concat kf n Hpos) as Hperm.
  assert (Hnd : NoDup (concat (iter_test_indices kf n))).
  { apply (Permutation_NoDup (Permutation_sym Hperm)), seq_NoDup. }
  unfold wp, split.
  destruct (n <? n_splits kf) eqn:E'; [apply Nat.ltb_lt in E'; lia|].
  unfold ret. split; [reflexivity|]. split.
  { rewrite length_map. apply (iter_test_indices_length kf n Hpos). }
  intros train test Hin.
  apply in_map_iff in Hin. destruct Hin as (run & Heq & Hrun).
  injection Heq as <- <-.
  assert (Hrun_nd : NoDup run /\ forall x, In x run -> x < n).
  { split.
    - clear - Hnd Hrun. induction (iter_test_indices kf n) as [|r rs IH];
        [contradiction|].
      simpl in Hnd. destruct Hrun as [-> | Hrun].
      + now apply NoDup_app_remove_r in Hnd.
      + apply IH; [now apply NoDup_app_remove_l in Hnd | assumption].
    - intros x Hx.
      assert (Hc : In x (concat (iter_test_indices kf n))).
      { apply in_concat. now exists run. }
      apply (Permutation_in _ Hperm), in_seq in Hc. lia. }
  destruct Hrun_nd as [Hrnd Hrlt].
  pose proof (Permutation_length (mask_permutation n run Hrnd Hrlt)) as Hlen.
  assert (Hsize : In (length run) (fold_sizes (n_splits kf) n)).
  { unfold iter_test_indices in Hrun.
    destruct (Forall2_In_l _ _ _ run
                (runs_sizes (fold_sizes (n_splits kf) n) _ ltac:(
                   rewrite fold_sizes_sum by lia;
                   rewrite (Permutation_length (indices_permutation kf n)), length_seq;
                   apply Nat.le_refl)) Hrun) as (s & Hs & Hl).
    now rewrite Hl. }
  pose proof (filter_partition_length (fun i => mem i run) (seq 0 n)) as Hpart.
  rewrite length_seq in Hpart.
  pose proof (Nat.div_mod_eq n (n_splits kf)) as Hd.
  pose proof (Nat.mod_upper_bound n (n_splits kf) ltac:(lia)) as Hm.
  assert (Hq : 1 <= n / n_splits kf) by (apply Nat.div_le_lower_bound; lia).
  apply fold_size_cases in Hsize.
  repeat split.
  - apply Forall_forall. intros x Hx. apply filter_In in Hx.
    destruct Hx as [Hx _]. apply in_seq in Hx. lia.
  - apply Forall_forall. intros x Hx. apply filter_In in Hx.
    destruct Hx as [Hx _]. apply in_seq in Hx. lia.
  - exact Hpart.
  - lia.
  - lia.
  - destruct Hsize as [Hs | [Hs Hr]]; nia.
  - lia.
Qed.
End SplitSizes.

Section RunFacts.
Context {T : Torch} {TL : TorchLaws T}.

Lemma wp_logger_info (r : LogRecord) (w : World) (post : unit -> World -> Prop) :
  post tt {| heap := heap w; log := log w ++ [r]; studies := studies w |} ->
  wp (logger_info r) w post.
Proof. intros H. exact H. Qed.

Lemma wp_on_heap (f : Heap -> Heap) (w : World) (post : unit -> World -> Prop) :
  post tt {| heap := f (heap w); log := log w; studies := studies w |} ->
  wp (on_heap f) w post.
Proof. intros H. exact H. Qed.

Lemma wp_call_heap {A} (f : Heap -> A * Heap) (w : World) (post : A -> World -> Prop) :
  post (fst (f (heap w)))
       {| heap := snd (f (heap w)); log := log w; studies := studies w |} ->
  wp (call_heap f) w post.
Proof. unfold wp, call_heap. destruct (f (heap w)). intros H. exact H. Qed.

Lemma wp_no_grad {A} (m : M World A) (w : World) (post : A -> World -> Prop) :
  wp m {| heap := set_grad_enabled false (heap w); log := log w; studies := studies w |}
     (fun a w' => post a {| heap := set_grad_enabled (grad_enabled (heap w)) (heap w');
                            log := log w'; studies := studies w' |}) ->
  wp (no_grad m) w post.
Proof.
  unfold wp, no_grad, finally, bind, on_heap, modify.
  destruct (m _); [intros H; exact H | intros []].
Qed.

Lemma wp_loader_batches (loader : DataLoaderT) (w : World) (post : list (list nat) -> World -> Prop) :
  post (batched (length (fst (drawn_order loader w))) (dl_batch_size loader)
                (fst (drawn_order loader w)))
       (snd (drawn_order loader w)) ->
  wp (loader_batches loader) w post.
Proof. unfold wp. rewrite loader_batches_eq. intros H. exact H. Qed.

Lemma wp_fetch (loader : DataLoaderT) (idxs : list nat) (w : World)
      (post : list Graph -> World -> Prop) :
  loader_ok loader ->
  (forall i, In i idxs -> i < subset_len (dl_dataset loader)) ->
  (forall data, length data = length idxs -> post data w) ->
  wp (fetch loader idxs) w post.
Proof.
  intros Hok Hr Hpost. destruct (fetch_ok loader idxs w Hok Hr) as (data & Hf & Hl).
  unfold wp. rewrite Hf. now apply Hpost.
Qed.

(** The batches a well-formed loader draws: in range, and as many
    positions in all as the subset has. *)
Lemma drawn_batches_total (loader : DataLoaderT) (w : World) :
  0 < dl_batch_size loader ->
  list_sum (map (@length nat)
                (batched (length (fst (drawn_order loader w))) (dl_batch_size loader)
                         (fst (drawn_order loader w))))
  = subset_len (dl_dataset loader).
Proof.
  intros Hb. rewrite list_sum_map_length, batched_concat; [| exact Hb | apply Nat.le_refl].
  rewrite (Permutation_length (drawn_order_perm loader w)). apply length_seq.
Qed.

Lemma train_ok (num_epochs : nat) (loader : DataLoaderT) (optimizer : Optimizer)
      (loss_fn : LossFn) (w : World) :
  loader_ok loader -> 0 < subset_len (dl_dataset loader) ->
  wp (train num_epochs loader optimizer loss_fn) w
     (fun _ w' => test_metrics (log w') = test_metrics (log w) /\
                  studies w' = studies w).
Proof.
  intros Hok Hn. unfold train. apply wp_bind, wp_on_heap. unfold for_each.
  apply (wp_for_fold
           (fun (_ : unit) w' => test_metrics (log w') = test_metrics (log w) /\
                                 studies w' = studies w)).
  - split; reflexivity.
  - intros ep [] w1 _ [Hlog Hst]. apply wp_bind.
    destruct (train_one_epoch_ok loader optimizer loss_fn w1 Hok Hn)
      as (l & trace & w2 & Hrun & _ & _ & _ & Hlog2 & Hst2).
    unfold wp at 1. rewrite Hrun. apply wp_logger_info. simpl. split.
    + rewrite test_metrics_app, Hlog2, Hlog. simpl. apply app_nil_r.
    + congruence.
Qed.

Lemma validate_loop (loader : DataLoaderT) (loss_fn : LossFn) :
  loader_ok loader ->
  forall batches acc w,
    (forall idxs i, In idxs batches -> In i idxs -> i < subset_len (dl_dataset loader)) ->
    wp (for_fold batches
          (fun '(valid_loss, num_data) idxs =>
             data <- fetch loader idxs ;;
             pred <- call_heap (forward data) ;;
             let loss := loss_fn pred (map graph_y data) in
             ret ((valid_loss + loss * Qnat (length data))%Q, num_data + length data))
          acc) w
       (fun acc' w' => snd acc' = snd acc + list_sum (map (@length nat) batches) /\
                       log w' = log w /\ studies w' = studies w).
Proof.
  intros Hok. induction batches as [|idxs batches IH]; intros [v n] w Hr.
  - simpl. apply wp_ret. simpl. repeat split; lia.
  - cbn [for_fold]. apply wp_bind. apply wp_bind.
    apply (wp_fetch loader idxs w); [exact Hok | |].
    { intros i Hi. apply (Hr idxs i); [now left | exact Hi]. }
    intros data Hl. apply wp_bind, wp_call_heap.
    cbv zeta. apply wp_ret.
    eapply wp_mono; [apply IH|].
    + intros idxs' i Hin Hi. apply (Hr idxs' i); [now right | exact Hi].
    + intros [v' n'] w' (Hn' & Hlog & Hst). simpl in *.
      repeat split; [lia | exact Hlog | exact Hst].
Qed.

Lemma validate_ok (loader : DataLoaderT) (loss_fn : LossFn) (w : World) :
  loader_ok loader -> 0 < subset_len (dl_dataset loader) ->
  wp (validate loader loss_fn) w
     (fun _ w' => log w' = log w /\ studies w' = studies w).
Proof.
  intros Hok Hn. unfold validate. apply wp_no_grad.
  apply wp_bind, wp_on_heap. apply wp_bind, wp_loader_batches.
  match goal with |- wp _ ?w0 _ => set (w1 := w0) end.
  match goal with |- context [drawn_order loader ?w0] => set (w2 := w0) in * end.
  pose proof (drawn_order_log loader w2) as [Hlog0 Hst0].
  apply wp_bind.
  eapply wp_mono; [apply (validate_loop loader loss_fn Hok)|].
  - intros idxs i Hin Hi.
    apply (drawn_batch_in_range loader w2 idxs i); [apply Hok | exact Hin | exact Hi].
  - intros [v n] w' (Hn' & Hlog & Hst). simpl in Hn'.
    rewrite (drawn_batches_total loader w2 (proj1 Hok)) in Hn'.
    destruct (n =? 0) eqn:E; [apply Nat.eqb_eq in E; lia|].
    apply wp_ret. simpl. unfold w1 in Hlog, Hst. split.
    + rewrite Hlog, Hlog0. reflexivity.
    + rewrite Hst, Hst0. reflexivity.
Qed.

Lemma rows_shape (pred ys : list Q) :
  length pred = length ys ->
  length (rows pred ys) = length pred /\
  Forall (fun row => length row = 2) (rows pred ys).
Proof.
  revert ys. induction pred as [|p pred IH]; intros [|t ys] Hl; simpl in *;
    try discriminate.
  - split; [reflexivity | constructor].
  - destruct (IH ys ltac:(lia)) as [H1 H2]. split; [lia | now constructor].
Qed.

Lemma test_loop (loader : DataLoaderT) (loss_fn : LossFn) :
  loader_ok loader ->
  forall batches w,
    (forall idxs i, In idxs batches -> In i idxs -> i < subset_len (dl_dataset loader)) ->
    wp (for_collect batches
          (fun idxs =>
             data <- fetch loader idxs ;;
             pred <- call_heap (forward data) ;;
             let loss := loss_fn pred (map graph_y data) in
             concatenated_batch <- cat_dim1 pred (map graph_y data) ;;
             ret concatenated_batch)) w
       (fun output w' =>
          length (concat output) = list_sum (map (@length nat) batches) /\
          Forall (fun row => length row = 2) (concat output) /\
          log w' = log w /\ studies w' = studies w).
Proof.
  intros Hok. induction batches as [|idxs batches IH]; intros w Hr.
  - simpl. apply wp_ret. simpl. repeat split. constructor.
  - cbn [for_collect]. apply wp_bind. apply wp_bind.
    apply (wp_fetch loader idxs w); [exact Hok | |].
    { intros i Hi. apply (Hr idxs i); [now left | exact Hi]. }
    intros data Hl. apply wp_bind, wp_call_heap. cbv zeta.
    assert (Hlen : length (fst (forward data (heap w))) = length (map graph_y data)).
    { now rewrite forward_length, length_map. }
    destruct (rows_shape _ _ Hlen) as [Hrl Hrf].
    apply wp_bind. unfold cat_dim1. rewrite Hlen, Nat.eqb_refl.
    apply wp_ret, wp_ret. apply wp_bind.
    eapply wp_mono; [apply IH|].
    + intros idxs' i Hin Hi. apply (Hr idxs' i); [now right | exact Hi].
    + intros output w' (Hc & Hf & Hlog & Hst). apply wp_ret.
      cbn [concat map list_sum]. rewrite length_app, Hc, Hrl, forward_length, Hl.
      repeat split; [apply Forall_app; now split | exact Hlog | exact Hst].
Qed.

Lemma test_ok (loader : DataLoaderT) (loss_fn : LossFn) (w : World) :
  loader_ok loader -> 2 <= subset_len (dl_dataset loader) ->
  wp (test loader loss_fn) w
     (fun v w' => log w' = log w ++ [LogTestMSE v] /\ studies w' = studies w).
Proof.
  intros Hok Hn. unfold test. apply wp_no_grad.
  apply wp_bind, wp_on_heap. apply wp_bind, wp_loader_batches.
  match goal with |- context [drawn_order loader ?w0] => set (w2 := w0) in * end.
  pose proof (drawn_order_log loader w2) as [Hlog0 Hst0].
  apply wp_bind.
  eapply wp_mono; [apply (test_loop loader loss_fn Hok)|].
  - intros idxs i Hin Hi.
    apply (drawn_batch_in_range loader w2 idxs i); [apply Hok | exact Hin | exact Hi].
  - intros output w' (Hc & Hf & Hlog & Hst).
    rewrite (drawn_batches_total loader w2 (proj1 Hok)) in Hc.
    apply wp_bind. unfold cat_dim0.
    destruct output as [|o output]; [simpl in Hc; lia|].
    apply wp_ret.
    destruct (concat (o :: output)) as [|row0 [|row1 stacked]] eqn:Es;
      try (simpl in Hc; lia).
    apply wp_bind. unfold tensor_getitem. simpl nth_error. apply wp_ret.
    apply wp_bind, wp_ret.
    apply Forall_inv in Hf as H0. apply Forall_inv_tail, Forall_inv in Hf as H1.
    apply wp_bind. unfold mean_squared_error. rewrite H0, H1. simpl.
    apply wp_ret. apply wp_bind, wp_logger_info, wp_ret. simpl. split.
    + rewrite Hlog, Hlog0. reflexivity.
    + rewrite Hst, Hst0. reflexivity.
Qed.
End RunFacts.

Lemma dict_get_app_l (d e : ParamDict) (k : string) :
  dict_get d k <> None -> dict_get (d ++ e) k <> None.
Proof.
  induction d as [|[k' v] d IH]; simpl; intros H; [congruence|].
  destruct (String.eqb k k'); [exact H | now apply IH].
Qed.

Lemma dict_get_app_new (d : ParamDict) (k : string) (v : Q) :
  dict_get (d ++ [(k, v)]) k <> None.
Proof.
  induction d as [|[k' v'] d IH]; simpl.
  - rewrite String.eqb_refl. discriminate.
  - destruct (String.eqb k k'); [discriminate | exact IH].
Qed.

Section SearchFacts.
Context {T : Torch} {TL : TorchLaws T} {R : RandomState} {RL : RandomStateLaws R}
        {O : Optuna}.

Lemma suggest_float_has (trial : Trial) (name : string) (low high : Q) :
  dict_get (t_params (snd (suggest_float trial name low high))) name <> None.
Proof.
  unfold suggest_float. destruct (dict_get (t_params trial) name) eqn:E; simpl.
  - congruence.
  - apply dict_get_app_new.
Qed.

Lemma suggest_float_keeps (trial : Trial) (name k : string) (low high : Q) :
  dict_get (t_params trial) k <> None ->
  dict_get (t_params (snd (suggest_float trial name low high))) k <> None.
Proof.
  intros H. unfold suggest_float. destruct (dict_get (t_params trial) name); simpl.
  - exact H.
  - now apply dict_get_app_l.
Qed.

Lemma wp_DataLoader (s : SubsetT) (b : nat) (sh : bool) (w : World)
      (post : DataLoaderT -> World -> Prop) :
  0 < b -> (sh = true -> 0 < subset_len s) ->
  post {| dl_dataset := s; dl_batch_size := b; dl_shuffle := sh |} w ->
  wp (DataLoader s b sh) w post.
Proof.
  intros Hb Hs H. unfold wp, DataLoader.
  destruct (sh && (subset_len s =? 0)) eqn:E0.
  - apply andb_true_iff in E0. destruct E0 as [E1 E2].
    apply Nat.eqb_eq in E2. specialize (Hs E1). lia.
  - destruct (b =? 0) eqn:E; [apply Nat.eqb_eq in E; lia | exact H].
Qed.

(** The objective returns on a pool large enough for its folds, leaves
    both hyperparameters in the trial and reports no test metric. *)
Lemma cv_objective_ok (dataset : list Graph) (trial : Trial) (k_inner : nat)
      (train_val_data : SubsetT) (loss_fn : LossFn) (num_epochs : nat) (w : World) :
  2 <= k_inner -> k_inner <= subset_len train_val_data ->
  subset_len train_val_data <= length dataset ->
  wp (cv_objective dataset trial k_inner train_val_data loss_fn num_epochs) w
     (fun r w' => has_hparams (t_params (snd r)) /\
                  test_metrics (log w') = test_metrics (log w)).
Proof.
  intros Hk Hn Hd. unfold cv_objective.
  apply wp_bind, wp_logger_info.
  apply wp_bind, wp_KFold; [exact Hk|].
  pose proof (suggest_float_has trial "lr" (1 # 100000) (1 # 100)) as Hlr.
  destruct (suggest_float trial "lr" (1 # 100000) (1 # 100)) as [lr trial1].
  pose proof (suggest_float_has trial1 "weight_decay" (1 # 100000) (1 # 1000)) as Hwd.
  pose proof (suggest_float_keeps trial1 "weight_decay" "lr" (1 # 100000) (1 # 1000) Hlr)
    as Hlr'.
  destruct (suggest_float trial1 "weight_decay" (1 # 100000) (1 # 1000))
    as [weight_decay trial2].
  simpl in Hlr, Hwd, Hlr'.
  apply wp_bind, wp_call_heap.
  apply wp_bind.
  eapply wp_mono; [apply split_ok; simpl; assumption|].
  intros splits w1 (-> & _ & Hsplits). simpl in Hsplits.
  match goal with |- wp _ ?w0 _ => set (w1 := w0) end.
  assert (Hw1 : test_metrics (log w1) = test_metrics (log w)).
  { unfold w1. simpl. rewrite test_metrics_app. simpl. apply app_nil_r. }
  apply wp_bind.
  eapply wp_mono.
  - apply (wp_for_collect
             (fun (_ : list Q) w' => test_metrics (log w') = test_metrics (log w))).
    + exact Hw1.
    + intros [fold_idx [train_idx valid_idx]] done w2 Hin Hinv.
      apply in_combine_r in Hin.
      destruct (Hsplits _ _ Hin) as (Htr & Hva & _ & _ & Htr0 & Hva0).
      apply wp_bind, wp_DataLoader; [lia | intros _; exact Htr0 |].
      apply wp_bind, wp_DataLoader; [lia | intros _; exact Hva0 |].
      apply wp_bind, wp_on_heap.
      apply wp_bind.
      eapply wp_mono; [apply train_ok|].
      * split; [simpl; lia|]. simpl.
        eapply Forall_impl; [|exact Htr]. simpl. intros i Hi. lia.
      * exact Htr0.
      * intros _ w3 [Hlog3 _]. apply wp_bind.
        eapply wp_mono; [apply validate_ok|].
        -- split; [simpl; lia|]. simpl.
           eapply Forall_impl; [|exact Hva]. simpl. intros i Hi. lia.
        -- exact Hva0.
        -- intros loss_v w4 [Hlog4 _]. apply wp_ret.
           rewrite Hlog4, Hlog3. exact Hinv.
  - intros inner_cv_loss w2 [Hinv _]. apply wp_ret. simpl.
    split; [split; assumption | exact Hinv].
Qed.

Lemma wp_create_study (d : Direction) (w : World) (post : Study -> World -> Prop) :
  post {| study_id := studies w; direction := d; trials := [] |}
       {| heap := heap w; log := log w; studies := S (studies w) |} ->
  wp (create_study d) w post.
Proof. intros H. exact H. Qed.

(** A search keeps the trials it has, adds trials that hold both
    hyperparameters, and reports no test metric. *)
Lemma optimize_ok (objective : Trial -> M World (Q * Trial)) (timeout : Q) :
  (forall trial w,
      wp (objective trial) w
         (fun r w' => has_hparams (t_params (snd r)) /\
                      test_metrics (log w') = test_metrics (log w))) ->
  forall n_trials study w,
    Forall (fun t => has_hparams (ft_params t)) (trials study) ->
    wp (optimize study objective n_trials timeout) w
       (fun study' w' =>
          Forall (fun t => has_hparams (ft_params t)) (trials study') /\
          length (trials study) <= length (trials study') /\
          direction study' = direction study /\
          test_metrics (log w') = test_metrics (log w)).
Proof.
  intros Hobj. induction n_trials as [|n IH]; intros study w Hall.
  - simpl. apply wp_ret. repeat split; [exact Hall | lia].
  - cbn [optimize].
    destruct (timed_out timeout (study_id study) (length (trials study))).
    + apply wp_ret. repeat split; [exact Hall | lia].
    + apply wp_bind. eapply wp_mono; [apply Hobj|].
      intros [value trial'] w1 [Hkeys Hlog1]. simpl in Hkeys.
      eapply wp_mono; [apply IH|].
      * simpl. apply Forall_app. split; [exact Hall|]. constructor; [exact Hkeys | constructor].
      * intros study' w' (Hall' & Hlen & Hdir & Hlog'). simpl in Hlen, Hdir.
        rewrite length_app in Hlen. simpl in Hlen.
        repeat split; [exact Hall' | lia | exact Hdir | congruence].
Qed.

(** A search that starts in time finishes at least one trial. *)
Lemma optimize_first (objective : Trial -> M World (Q * Trial)) (timeout : Q)
      (n : nat) (study : Study) (w : World) :
  (forall trial w,
      wp (objective trial) w
         (fun r w' => has_hparams (t_params (snd r)) /\
                      test_metrics (log w') = test_metrics (log w))) ->
  trials study = [] -> timed_out timeout (study_id study) 0 = false ->
  wp (optimize study objective (S n) timeout) w
     (fun study' w' =>
        Forall (fun t => has_hparams (ft_params t)) (trials study') /\
        trials study' <> [] /\
        test_metrics (log w') = test_metrics (log w)).
Proof.
  intros Hobj Hnil Hclock. cbn [optimize]. rewrite Hnil. simpl length. rewrite Hclock.
  apply wp_bind. eapply wp_mono; [apply Hobj|].
  intros [value trial'] w1 [Hkeys Hlog1]. simpl in Hkeys.
  eapply wp_mono; [apply (optimize_ok objective timeout Hobj)|].
  - simpl. constructor; [exact Hkeys | constructor].
  - intros study' w' (Hall' & Hlen & _ & Hlog'). simpl in Hlen.
    repeat split; [exact Hall' | | congruence].
    intros E. rewrite E in Hlen. simpl in Hlen. lia.
Qed.

Lemma best_of_In (d : Direction) (best : FrozenTrial) (l : list FrozenTrial) :
  In (best_of d best l) (best :: l).
Proof.
  revert best. induction l as [|t l IH]; intros best; simpl.
  - now left.
  - destruct (IH (if better d best t then t else best)) as [H | H].
    + destruct (better d best t); [right; left | left]; exact H.
    + right. right. exact H.
Qed.

(** When minimizing, no recorded trial has a smaller value than the best. *)
Lemma best_of_minimal (l : list FrozenTrial) :
  forall best t, In t (best :: l) ->
                 (ft_value (best_of Minimize best l) <= ft_value t)%Q.
Proof.
  induction l as [|t0 l IH]; intros best t Hin.
  - destruct Hin as [<- | []]. simpl. apply Qle_refl.
  - cbn [best_of].
    assert (Hstep : (ft_value (if better Minimize best t0 then t0 else best)
                     <= ft_value best)%Q /\
                    (ft_value (if better Minimize best t0 then t0 else best)
                     <= ft_value t0)%Q).
    { unfold better, Qlt_bool.
      destruct (Qle_bool (ft_value best) (ft_value t0)) eqn:E; simpl.
      - apply Qle_bool_iff in E. split; [apply Qle_refl | exact E].
      - split; [|apply Qle_refl].
        destruct (Qlt_le_dec (ft_value t0) (ft_value best)) as [Hlt | Hle].
        + now apply Qlt_le_weak.
        + apply Qle_bool_iff in Hle. congruence. }
    destruct Hstep as [Hb Ht0].
    pose proof (IH (if better Minimize best t0 then t0 else best)) as IH'.
    destruct Hin as [<- | [<- | Hin]].
    + eapply Qle_trans; [apply IH'; now left | exact Hb].
    + eapply Qle_trans; [apply IH'; now left | exact Ht0].
    + apply IH'. now right.
Qed.

Lemma wp_best_trial (study : Study) (w : World) (post : FrozenTrial -> World -> Prop) :
  trials study <> [] ->
  (forall t, In t (trials study) -> post t w) ->
  wp (best_trial study) w post.
Proof.
  intros Hne Hpost. unfold wp, best_trial.
  destruct (trials study) as [|t r] eqn:E; [congruence|].
  apply Hpost. apply best_of_In.
Qed.

Lemma wp_dict_getitem (d : ParamDict) (k : string) (w : World) (post : Q -> World -> Prop) :
  dict_get d k <> None -> (forall v, post v w) -> wp (dict_getitem d k) w post.
Proof.
  intros Hk Hpost. unfold wp, dict_getitem.
  destruct (dict_get d k); [apply Hpost | congruence].
Qed.
End SearchFacts.

Ltac log_simpl :=
  simpl; repeat rewrite test_metrics_app; simpl; repeat rewrite app_nil_r.

(** C3 as stated fails: the experiment over six graphs with three outer
    folds runs to its end and its value is [None], not the mean of the fold
    metrics. *)
Lemma nested_cv_returns_none :
  exists w',
    @nested_cv_experiment toy_torch toy_random toy_optuna (toy_config 6 3 2 2 32)
                          (toy_world 0) = Ok None w'.
Proof. eexists. vm_compute. reflexivity. Qed.

(** * Further properties *)

(** ** The dataset adapter: length and lookup *)

Section DatasetObjectFacts.
Variable Mol : Type.
Variable from_smiles : string -> Mol.

Lemma count_loop (fs : RawFiles) (raw_paths : list string) (dfs : list DataFrame) :
  Forall2 (fun path df => fs path = Some df) raw_paths dfs ->
  forall (count : nat) (s : DatasetState Mol),
    for_fold raw_paths
      (fun count raw_path =>
         df <- in_dir Mol (read_csv Mol fs raw_path) ;;
         ret (count + length df))
      count s
    = Ok (count + list_sum (map (@length _) dfs)) s.
Proof.
  induction 1 as [|path df raw_paths dfs Hread _ IH]; intros count s.
  - simpl. unfold ret. now rewrite Nat.add_0_r.
  - cbn [for_fold]. unfold bind at 1. unfold bind at 1.
    unfold in_dir, read_csv. rewrite Hread. unfold ret at 1.
    destruct s as [c d]. cbn [data_count processed]. unfold ret at 1.
    rewrite IH. cbn [map list_sum fold_right]. now rewrite Nat.add_assoc.
Qed.

Lemma count_loop_missing (fs : RawFiles) (raw_paths : list string) (path : string) :
  In path raw_paths -> fs path = None ->
  forall (count : nat) (s : DatasetState Mol),
    for_fold raw_paths
      (fun count raw_path =>
         df <- in_dir Mol (read_csv Mol fs raw_path) ;;
         ret (count + length df))
      count s
    = Raise FileNotFoundError s.
Proof.
  intros Hin Hnone. induction raw_paths as [|p raw_paths IH]; intros count s;
    [contradiction|].
  cbn [for_fold]. unfold bind at 1. unfold bind at 1. unfold in_dir, read_csv.
  destruct s as [c d]. cbn [data_count processed].
  destruct (fs p) as [df|] eqn:E.
  - unfold ret at 1 2. destruct Hin as [-> | Hin]; [congruence|]. now apply IH.
  - reflexivity.
Qed.

Lemma nth_error_repeated (gs : list (Data Mol)) (k idx : nat) :
  idx < k * length gs ->
  nth_error (concat (repeat gs k)) idx = nth_error gs (idx mod length gs).
Proof.
  revert idx. induction k as [|k IH]; intros idx Hlt; [simpl in Hlt; lia|].
  cbn [repeat concat].
  destruct (Nat.lt_ge_cases idx (length gs)) as [Hl | Hl].
  - rewrite nth_error_app1 by exact Hl. now rewrite Nat.mod_small.
  - rewrite nth_error_app2 by exact Hl. rewrite IH by (simpl in Hlt; lia).
    f_equal.
    replace idx with (idx - length gs + 1 * length gs) at 2 by lia.
    now rewrite Nat.Div0.mod_add.
Qed.

Lemma length_repeated (gs : list (Data Mol)) (k : nat) :
  length (concat (repeat gs k)) = k * length gs.
Proof.
  induction k as [|k IH]; simpl; [reflexivity|]. now rewrite length_app, IH.
Qed.
End DatasetObjectFacts.

(** X1. With every raw file readable and no cached count, [len] is the
    sum of the row counts of all raw files, each file counted with its own
    rows; the count is cached, so that later calls answer the same number
    without reading a file, whatever the files then hold. *)
Theorem len_counts_all_rows (Mol : Type) (fs : RawFiles) (raw_paths : list string)
        (dfs : list DataFrame) (s : DatasetState Mol) :
  data_count s = None ->
  Forall2 (fun path df => fs path = Some df) raw_paths dfs ->
  len Mol fs raw_paths s
  = Ok (list_sum (map (@length _) dfs))
       {| data_count := Some (list_sum (map (@length _) dfs));
          processed := processed s |} /\
  forall fs',
    len Mol fs' raw_paths
        {| data_count := Some (list_sum (map (@length _) dfs));
           processed := processed s |}
    = Ok (list_sum (map (@length _) dfs))
         {| data_count := Some (list_sum (map (@length _) dfs));
            processed := processed s |}.
Proof.
  intros Hnone Hread. split.
  - unfold len, bind at 1, processed_file_names. rewrite Hnone.
    unfold bind at 1, _calculate_num_data_objects.
    rewrite (count_loop Mol fs raw_paths dfs Hread 0 s).
    unfold bind, modify, ret. cbn [processed Nat.add]. now rewrite length_seq.
  - intros fs'. unfold len, bind, processed_file_names. cbn [data_count].
    unfold ret. now rewrite length_seq.
Qed.

Lemma len_counts_all_rows_witness :
  len string toy_files ["a.csv"%string; "b.csv"%string] (toy_state empty_dir)
  = Ok 3 {| data_count := Some 3; processed := empty_dir |} /\
  forall fs',
    len string fs' ["a.csv"%string; "b.csv"%string]
        {| data_count := Some 3; processed := empty_dir |}
    = Ok 3 {| data_count := Some 3; processed := empty_dir |}.
Proof.
  apply (len_counts_all_rows string toy_files ["a.csv"%string; "b.csv"%string]
           [[("C"%string, 1%Q)]; [("CC"%string, 2%Q); ("CCC"%string, 3%Q)]]
           (toy_state empty_dir)).
  - reflexivity.
  - repeat constructor.
Defined.

(** X2. Without a cached count, one unreadable raw file makes [len] fail
    with a file-not-found error and leaves the adapter as it was. *)
Theorem len_missing_file (Mol : Type) (fs : RawFiles) (raw_paths : list string)
        (path : string) (s : DatasetState Mol) :
  data_count s = None -> In path raw_paths -> fs path = None ->
  len Mol fs raw_paths s = Raise FileNotFoundError s.
Proof.
  intros Hnone Hin Hmiss.
  unfold len, bind at 1, processed_file_names. rewrite Hnone.
  unfold bind at 1, _calculate_num_data_objects.
  now rewrite (count_loop_missing Mol fs raw_paths path Hin Hmiss 0 s).
Qed.

Lemma len_missing_file_witness :
  len string toy_files ["a.csv"%string; "c.csv"%string] (toy_state empty_dir)
  = Raise FileNotFoundError (toy_state empty_dir).
Proof.
  apply (len_missing_file string toy_files ["a.csv"%string; "c.csv"%string]
           "c.csv"%string (toy_state empty_dir)).
  - reflexivity.
  - simpl. tauto.
  - reflexivity.
Defined.

Lemma process_written (Mol : Type) (from_smiles : string -> Mol) (fs : RawFiles)
      (raw_paths : list string) (p0 : string) (df0 : DataFrame) (d : ProcessedDir Mol) :
  nth_error raw_paths 0 = Some p0 -> fs p0 = Some df0 ->
  exists d',
    process Mol from_smiles fs raw_paths d = Ok tt d' /\
    forall j, d' j = written 0 (concat (repeat (graphs_of Mol from_smiles df0)
                                               (length raw_paths))) d j.
Proof.
  intros Hp0 Hfs.
  destruct (process_loop Mol from_smiles fs raw_paths p0 df0 Hp0 Hfs raw_paths 0 d)
    as (d' & Hrun & Hd').
  exists d'. split; [|exact Hd'].
  unfold process, bind in *. rewrite Hrun. reflexivity.
Qed.

(** X3. Round trip for a single raw file: after [process], [get i] returns,
    for every row [i] of the file, the graph built from that row's
    descriptor string with that row's target, and leaves the adapter
    unchanged. *)
Theorem single_file_round_trip (Mol : Type) (from_smiles : string -> Mol)
        (fs : RawFiles) (path : string) (df : DataFrame) (s : DatasetState Mol) :
  fs path = Some df ->
  exists s',
    in_dir Mol (process Mol from_smiles fs [path]) s = Ok tt s' /\
    data_count s' = data_count s /\
    forall i smile y,
      nth_error df i = Some (smile, y) ->
      get Mol i s' = Ok {| mol := from_smiles smile; data_y := y |} s'.
Proof.
  intros Hfs.
  destruct (process_written Mol from_smiles fs [path] path df (processed s) eq_refl Hfs)
    as (d' & Hrun & Hd').
  exists {| data_count := data_count s; processed := d' |}.
  split; [unfold in_dir; now rewrite Hrun|]. split; [reflexivity|].
  intros i smile y Hrow.
  assert (Hi : i < length df) by (apply nth_error_Some; congruence).
  unfold get, in_dir, torch_load. cbn [processed data_count].
  rewrite Hd'. unfold written. cbn [length repeat concat]. rewrite app_nil_r.
  rewrite graphs_of_length, Nat.sub_0_r. cbn [Nat.add Nat.leb andb].
  destruct (i <? length df) eqn:E; [|apply Nat.ltb_ge in E; lia].
  unfold graphs_of. rewrite (map_nth_error _ _ _ Hrow). reflexivity.
Qed.

Lemma single_file_round_trip_witness :
  exists s',
    in_dir string (process string (fun x => x) toy_files ["b.csv"%string])
           (toy_state empty_dir) = Ok tt s' /\
    data_count s' = data_count (toy_state empty_dir) /\
    forall i smile y,
      nth_error [("CC"%string, 2%Q); ("CCC"%string, 3%Q)] i = Some (smile, y) ->
      get string i s' = Ok {| mol := smile; data_y := y |} s'.
Proof.
  apply (single_file_round_trip string (fun x => x) toy_files "b.csv"%string
           [("CC"%string, 2%Q); ("CCC"%string, 3%Q)] (toy_state empty_dir)).
  reflexivity.
Defined.

(** X4. With several raw paths and an empty processed directory, after
    [process] the indices that can be fetched are exactly those below the
    number of raw paths times the row count of the first file: below it,
    [get idx] is the graph of row [idx mod rows] of the first file; from it
    on, [get idx] fails with a file-not-found error, also for indices below
    [len] when the files together hold more rows than that. *)
Theorem fetchable_indices (Mol : Type) (from_smiles : string -> Mol)
        (fs : RawFiles) (p0 : string) (rest : list string) (df0 : DataFrame)
        (s : DatasetState Mol) :
  fs p0 = Some df0 -> (forall j, processed s j = None) ->
  exists s',
    in_dir Mol (process Mol from_smiles fs (p0 :: rest)) s = Ok tt s' /\
    (forall idx, idx < length (p0 :: rest) * length df0 ->
       exists g, get Mol idx s' = Ok g s' /\
                 nth_error (graphs_of Mol from_smiles df0) (idx mod length df0) = Some g) /\
    (forall idx, length (p0 :: rest) * length df0 <= idx ->
       get Mol idx s' = Raise FileNotFoundError s').
Proof.
  intros Hfs Hempty.
  destruct (process_written Mol from_smiles fs (p0 :: rest) p0 df0 (processed s)
                            eq_refl Hfs) as (d' & Hrun & Hd').
  exists {| data_count := data_count s; processed := d' |}.
  split; [unfold in_dir; now rewrite Hrun|].
  set (gs := graphs_of Mol from_smiles df0) in *.
  set (k := length (p0 :: rest)) in *.
  assert (Hlen : length (concat (repeat gs k)) = k * length df0).
  { rewrite length_repeated. unfold gs. now rewrite graphs_of_length. }
  split.
  - intros idx Hlt.
    assert (Hsome : nth_error (concat (repeat gs k)) idx <> None)
      by (apply nth_error_Some; lia).
    destruct (nth_error (concat (repeat gs k)) idx) as [g|] eqn:Eg; [|congruence].
    exists g. split.
    + unfold get, in_dir, torch_load. cbn [processed data_count].
      rewrite Hd'. unfold written. rewrite Hlen, Nat.sub_0_r. cbn [Nat.add Nat.leb andb].
      destruct (idx <? k * length df0) eqn:E; [|apply Nat.ltb_ge in E; lia].
      now rewrite Eg.
    + assert (Hg : length gs = length df0) by apply graphs_of_length.
      rewrite <- Eg, <- Hg. symmetry. apply nth_error_repeated.
      rewrite Hg. exact Hlt.
  - intros idx Hge.
    unfold get, in_dir, torch_load. cbn [processed data_count].
    rewrite Hd'. unfold written. rewrite Hlen. cbn [Nat.add Nat.leb andb].
    destruct (idx <? k * length df0) eqn:E; [apply Nat.ltb_lt in E; lia|].
    now rewrite Hempty.
Qed.

Lemma fetchable_indices_witness :
  exists s',
    in_dir string (process string (fun x => x) toy_files
                           ["a.csv"%string; "b.csv"%string])
           (toy_state empty_dir) = Ok tt s' /\
    (forall idx, idx < 2 * 1 ->
       exists g, get string idx s' = Ok g s' /\
                 nth_error (graphs_of string (fun x => x) [("C"%string, 1%Q)])
                           (idx mod 1) = Some g) /\
    (forall idx, 2 * 1 <= idx -> get string idx s' = Raise FileNotFoundError s').
Proof.
  apply (fetchable_indices string (fun x => x) toy_files "a.csv"%string
           ["b.csv"%string] [("C"%string, 1%Q)] (toy_state empty_dir)).
  - reflexivity.
  - intros j. reflexivity.
Defined.

(** X5. When the first raw path cannot be read, [process] fails with a
    file-not-found error before it saves anything: the processed directory
    is as before, whatever the other files hold. *)
Theorem process_first_file_missing (Mol : Type) (from_smiles : string -> Mol)
        (fs : RawFiles) (p0 : string) (rest : list string) (d : ProcessedDir Mol) :
  fs p0 = None ->
  process Mol from_smiles fs (p0 :: rest) d = Raise FileNotFoundError d.
Proof.
  intros Hfs. unfold process. cbn [for_fold].
  unfold bind, list_getitem, read_csv. cbn [nth_error]. unfold ret.
  now rewrite Hfs.
Qed.

Lemma process_first_file_missing_witness :
  process string (fun x => x) toy_files ["c.csv"%string; "a.csv"%string] empty_dir
  = Raise FileNotFoundError empty_dir.
Proof.
  apply (process_first_file_missing string (fun x => x) toy_files "c.csv"%string
           ["a.csv"%string] empty_dir).
  reflexivity.
Defined.

(** ** The training wrapper *)

Section FailFacts.
Context {W : Type}.

Lemma fails_bind {A B} (m : M W A) (k : A -> M W B) (w : W) (e : exn)
      (post : W -> Prop) :
  wp m w (fun a w' => fails (k a) w' e post) -> fails (bind m k) w e post.
Proof. unfold wp, fails, bind. destruct (m w); [intros H; exact H | intros []]. Qed.

Lemma fails_first {A B} (m : M W A) (k : A -> M W B) (w : W) (e : exn)
      (post : W -> Prop) :
  fails m w e post -> fails (bind m k) w e post.
Proof. unfold fails, bind. destruct (m w); [intros [] | intros H; exact H]. Qed.

Lemma fails_raise {A} (w : W) (e : exn) (post : W -> Prop) :
  post w -> fails (@raise W A e) w e post.
Proof. intros H. split; [reflexivity | exact H]. Qed.

Lemma fails_mono {A} (m : M W A) (w : W) (e : exn) (P Q : W -> Prop) :
  fails m w e P -> (forall w', P w' -> Q w') -> fails m w e Q.
Proof.
  unfold fails. destruct (m w); [intros [] | intros [He HP] HPQ].
  split; [exact He | now apply HPQ].
Qed.
End FailFacts.

Section TrainFacts.
Context {T : Torch} {TL : TorchLaws T}.

Lemma epochs_loop (loader : DataLoaderT) (optimizer : Optimizer) (loss_fn : LossFn) :
  loader_ok loader -> 0 < subset_len (dl_dataset loader) ->
  forall (n start : nat) (w : World),
  exists losses w',
    for_fold (seq start n)
      (fun (_ : unit) ep =>
         loss <- train_one_epoch loader optimizer loss_fn ;;
         logger_info (LogEpoch ep loss))
      tt w = Ok tt w' /\
    length losses = n /\
    log w' = log w ++ epoch_records start losses.
Proof.
  intros Hok Hn. induction n as [|n IH]; intros start w.
  - exists [], w. repeat split. unfold epoch_records. simpl. now rewrite app_nil_r.
  - destruct (train_one_epoch_ok loader optimizer loss_fn w Hok Hn)
      as (l & trace & w1 & Hrun & _ & _ & _ & Hlog1 & _).
    destruct (IH (S start)
                 {| heap := heap w1; log := log w1 ++ [LogEpoch start l];
                    studies := studies w1 |})
      as (losses & w' & Hloop & Hlen & Hlog).
    exists (l :: losses), w'. split; [|split].
    + cbn [seq for_fold]. unfold bind at 1. unfold bind at 1. rewrite Hrun.
      unfold logger_info at 1, modify at 1. exact Hloop.
    + simpl. now rewrite Hlen.
    + rewrite Hlog. cbn [log]. rewrite Hlog1, <- app_assoc. reflexivity.
Qed.
End TrainFacts.

(** X6. On a non-empty, well-formed loader [train] runs exactly
    [num_epochs] epochs: it returns, and what it appends to the log is one
    epoch record per epoch, numbered 0, 1, ... in order, and nothing else. *)
Theorem train_logs_every_epoch (T : Torch) (TL : TorchLaws T) (num_epochs : nat)
        (loader : DataLoaderT) (optimizer : Optimizer) (loss_fn : LossFn) (w : World) :
  loader_ok loader -> 0 < subset_len (dl_dataset loader) ->
  exists losses w',
    train num_epochs loader optimizer loss_fn w = Ok tt w' /\
    length losses = num_epochs /\
    log w' = log w ++ epoch_records 0 losses.
Proof.
  intros Hok Hn.
  destruct (epochs_loop loader optimizer loss_fn Hok Hn num_epochs 0
              {| heap := model_train (heap w); log := log w; studies := studies w |})
    as (losses & w' & Hloop & Hlen & Hlog).
  exists losses, w'. split; [|split; [exact Hlen | exact Hlog]].
  unfold train, bind at 1, on_heap, modify, for_each. exact Hloop.
Qed.

Lemma train_logs_every_epoch_witness :
  exists losses w',
    @train toy_torch 3 (toy_loader (toy_dataset 5) 2) (1 # 100) mse_loss (toy_world 0)
    = Ok tt w' /\
    length losses = 3 /\
    log w' = log (toy_world 0) ++ epoch_records 0 losses.
Proof.
  apply (train_logs_every_epoch toy_torch toy_torch_laws 3
           (toy_loader (toy_dataset 5) 2) (1 # 100) mse_loss (toy_world 0)).
  - split; [vm_compute; lia | vm_compute; repeat constructor].
  - vm_compute. lia.
Defined.

(** X7. On a loader without samples [train] fails in its first epoch with
    a division-by-zero error and logs nothing; asked for no epoch at all, it
    returns and has only switched the model to training mode. *)
Theorem train_on_empty_loader (T : Torch) (TL : TorchLaws T) (num_epochs : nat)
        (loader : DataLoaderT) (optimizer : Optimizer) (loss_fn : LossFn) (w : World) :
  subset_len (dl_dataset loader) = 0 ->
  fails (train (S num_epochs) loader optimizer loss_fn) w ZeroDivisionError
        (fun w' => log w' = log w) /\
  train 0 loader optimizer loss_fn w
  = Ok tt {| heap := model_train (heap w); log := log w; studies := studies w |}.
Proof.
  intros H0. split; [|reflexivity].
  unfold train. apply fails_bind, wp_on_heap. unfold for_each.
  cbn [seq for_fold]. apply fails_first, fails_first.
  unfold fails, train_one_epoch, bind.
  rewrite (loader_batches_empty loader _ H0). cbn [for_fold]. unfold ret.
  cbn [Nat.eqb]. unfold raise. split; [reflexivity|].
  match goal with
  | |- log (snd (drawn_order loader ?w1)) = _ =>
      exact (proj1 (drawn_order_log loader w1))
  end.
Qed.

Lemma train_on_empty_loader_witness :
  fails (@train toy_torch 2 (toy_loader [] 32) (1 # 100) mse_loss) (toy_world 0)
        ZeroDivisionError (fun w' => log w' = log (toy_world 0)) /\
  @train toy_torch 0 (toy_loader [] 32) (1 # 100) mse_loss (toy_world 0)
  = Ok tt {| heap := model_train (heap (toy_world 0)); log := log (toy_world 0);
             studies := studies (toy_world 0) |}.
Proof.
  apply (train_on_empty_loader toy_torch toy_torch_laws 1 (toy_loader [] 32)
           (1 # 100) mse_loss (toy_world 0)).
  reflexivity.
Defined.

(** ** The evaluators on a model that predicts graph by graph *)

Lemma Qsum_app (a b : list Q) : (Qsum (a ++ b) == Qsum a + Qsum b)%Q.
Proof.
  induction a as [|x a IH].
  - simpl. unfold Qsum at 2. simpl. ring.
  - change ((x :: a) ++ b) with (x :: (a ++ b)).
    rewrite !Qsum_cons, IH. ring.
Qed.

Lemma Qsum_perm (a b : list Q) : Permutation a b -> (Qsum a == Qsum b)%Q.
Proof.
  induction 1 as [|x a b _ IH|x y a|a b c _ IH1 _ IH2].
  - reflexivity.
  - now rewrite !Qsum_cons, IH.
  - rewrite !Qsum_cons. ring.
  - now rewrite IH1.
Qed.

Lemma np_mean_scaled (l : list Q) : (np_mean l * Qnat (length l) == Qsum l)%Q.
Proof.
  destruct l as [|x l].
  - reflexivity.
  - unfold np_mean. field. unfold Qnat, Qeq. simpl. lia.
Qed.

Lemma squared_errors_map {A} (f g : A -> Q) (data : list A) :
  squared_errors (map f data) (map g data) = map (fun x => sq (f x - g x)) data.
Proof. induction data as [|x data IH]; simpl; [reflexivity | now rewrite IH]. Qed.

Lemma rows_map {A} (f g : A -> Q) (data : list A) :
  rows (map f data) (map g data) = map (fun x => [f x; g x]) data.
Proof. induction data as [|x data IH]; simpl; [reflexivity | now rewrite IH]. Qed.

Lemma picked_app {A} (items : list A) (a b : list nat) :
  picked items (a ++ b) = picked items a ++ picked items b.
Proof. apply flat_map_app. Qed.

Lemma picked_range {A} (pre rest : list A) :
  picked (pre ++ rest) (seq (length pre) (length rest)) = rest.
Proof.
  revert pre. induction rest as [|x rest IH]; intros pre; [reflexivity|].
  cbn [length seq picked flat_map].
  rewrite nth_error_app2, Nat.sub_diag by apply Nat.le_refl. cbn [nth_error app].
  f_equal. specialize (IH (pre ++ [x])).
  rewrite <- app_assoc, length_app in IH. cbn [length app] in IH.
  replace (length pre + 1) with (S (length pre)) in IH by lia. exact IH.
Qed.

Lemma picked_all {A} (items : list A) : picked items (seq 0 (length items)) = items.
Proof. exact (picked_range [] items). Qed.

(** A subset with indices in range holds one graph per index. *)
Lemma picked_valid_nth {A} (ds : list A) (indices : list nat) :
  Forall (fun j => j < length ds) indices ->
  forall i, nth_error (picked ds indices) i
            = match nth_error indices i with
              | Some j => nth_error ds j
              | None => None
              end.
Proof.
  induction 1 as [|j indices Hj _ IH]; intros i.
  - now destruct i.
  - cbn [picked flat_map]. apply nth_error_Some in Hj.
    destruct (nth_error ds j) as [g|] eqn:Eg; [|congruence].
    destruct i as [|i]; cbn [app nth_error]; [now rewrite Eg | apply IH].
Qed.

Lemma picked_valid_length {A} (ds : list A) (indices : list nat) :
  Forall (fun j => j < length ds) indices ->
  length (picked ds indices) = length indices.
Proof.
  induction 1 as [|j indices Hj _ IH]; [reflexivity|].
  cbn [picked flat_map]. apply nth_error_Some in Hj.
  destruct (nth_error ds j); [|congruence].
  cbn [app length]. f_equal. exact IH.
Qed.

Section EvaluatorFacts.
Context {T : Torch} {TL : TorchLaws T} {predict : Heap -> Graph -> Q}
        {PG : PerGraphForward T predict}.

Lemma subset_items_length (s : SubsetT) :
  Forall (fun j => j < length (sub_dataset s)) (sub_indices s) ->
  length (subset_items s) = subset_len s.
Proof. apply picked_valid_length. Qed.

(** Fetching a batch returns the subset's graphs at the batch positions. *)
Lemma fetch_picked (loader : DataLoaderT) (idxs : list nat) (w : World) :
  loader_ok loader ->
  (forall i, In i idxs -> i < subset_len (dl_dataset loader)) ->
  fetch loader idxs w = Ok (picked (subset_items (dl_dataset loader)) idxs) w.
Proof.
  intros [_ Hv]. unfold fetch.
  induction idxs as [|i idxs IH]; intros Hr; [reflexivity|].
  assert (Hget : exists g, subset_getitem (dl_dataset loader) i w = Ok g w /\
                           nth_error (subset_items (dl_dataset loader)) i = Some g).
  { assert (Hi : i < subset_len (dl_dataset loader)) by (apply Hr; now left).
    pose proof (picked_valid_nth _ _ Hv i) as Hnth.
    unfold subset_getitem, subset_items. fold (picked (sub_dataset (dl_dataset loader))
                                                     (sub_indices (dl_dataset loader))).
    rewrite Hnth. unfold subset_len in Hi.
    destruct (nth_error (sub_indices (dl_dataset loader)) i) as [j|] eqn:Ej;
      [|apply nth_error_None in Ej; lia].
    assert (Hj : j < length (sub_dataset (dl_dataset loader))).
    { rewrite Forall_forall in Hv. apply Hv. eapply nth_error_In; eassumption. }
    destruct (nth_error (sub_dataset (dl_dataset loader)) j) as [g|] eqn:Eg;
      [|apply nth_error_None in Eg; lia].
    now exists g. }
  destruct Hget as (g & Hget & Hnth).
  cbn [for_collect]. unfold bind. rewrite Hget.
  rewrite IH by (intros k Hk; apply Hr; now right).
  unfold ret. cbn [picked flat_map]. now rewrite Hnth.
Qed.

Lemma wp_fetch_picked (loader : DataLoaderT) (idxs : list nat) (w : World)
      (post : list Graph -> World -> Prop) :
  loader_ok loader ->
  (forall i, In i idxs -> i < subset_len (dl_dataset loader)) ->
  post (picked (subset_items (dl_dataset loader)) idxs) w ->
  wp (fetch loader idxs) w post.
Proof.
  intros Hok Hr Hpost. unfold wp. now rewrite (fetch_picked loader idxs w Hok Hr).
Qed.

Lemma forward_predictions (h0 h : Heap) (data : list Graph) :
  (forall g, predict h g = predict h0 g) ->
  fst (forward data h) = map (predict h0) data.
Proof.
  intros Hp. rewrite forward_predict. apply map_ext. exact Hp.
Qed.

(** The evaluation loop with the mean-squared-error loss accumulates the
    squared errors of the graphs it goes through. *)
Lemma validate_loop_mse (loader : DataLoaderT) (h0 : Heap) :
  loader_ok loader ->
  forall batches acc w,
    (forall idxs i, In idxs batches -> In i idxs -> i < subset_len (dl_dataset loader)) ->
    (forall g, predict (heap w) g = predict h0 g) ->
    wp (for_fold batches
          (fun '(valid_loss, num_data) idxs =>
             data <- fetch loader idxs ;;
             pred <- call_heap (forward data) ;;
             let loss := mse_loss pred (map graph_y data) in
             ret ((valid_loss + loss * Qnat (length data))%Q, num_data + length data))
          acc) w
       (fun acc' w' =>
          (fst acc' == fst acc
                       + Qsum (map (graph_sq_error (predict h0))
                                   (picked (subset_items (dl_dataset loader))
                                           (concat batches))))%Q /\
          snd acc' = snd acc + length (concat batches)).
Proof.
  intros Hok. induction batches as [|idxs batches IH]; intros [v n] w Hr Hp.
  - simpl. apply wp_ret. simpl. split; [unfold Qsum; simpl; ring | lia].
  - cbn [for_fold]. apply wp_bind. apply wp_bind.
    apply wp_fetch_picked; [exact Hok | |].
    { intros i Hi. apply (Hr idxs i); [now left | exact Hi]. }
    set (data := picked (subset_items (dl_dataset loader)) idxs).
    apply wp_bind, wp_call_heap. cbv zeta. apply wp_ret.
    rewrite (forward_predictions h0 (heap w) data Hp).
    eapply wp_mono; [apply IH|].
    + intros idxs' i Hin Hi. apply (Hr idxs' i); [now right | exact Hi].
    + intros g. cbn [heap]. rewrite forward_same. apply Hp.
    + intros [v' n'] w' [Hv Hn]. cbn [fst snd] in *. split.
      * rewrite Hv. cbn [concat]. rewrite picked_app, map_app, Qsum_app.
        fold data. unfold mse_loss, mse. rewrite squared_errors_map.
        change (fun x : Graph => sq (predict h0 x - graph_y x))
          with (graph_sq_error (predict h0)).
        rewrite <- (np_mean_scaled (map (graph_sq_error (predict h0)) data)).
        rewrite length_map. ring.
      * rewrite Hn. cbn [concat]. rewrite length_app.
        assert (Hl : length data = length idxs).
        { destruct (fetch_ok loader idxs w Hok) as (d & Hf & Hl).
          { intros i Hi. apply (Hr idxs i); [now left | exact Hi]. }
          rewrite (fetch_picked loader idxs w Hok) in Hf
            by (intros i Hi; apply (Hr idxs i); [now left | exact Hi]).
          injection Hf as <-. exact Hl. }
        lia.
Qed.

Lemma drawn_order_predict (loader : DataLoaderT) (w : World) (g : Graph) :
  predict (heap (snd (drawn_order loader w))) g = predict (heap w) g.
Proof.
  unfold drawn_order. destruct (dl_shuffle loader); [|reflexivity].
  cbn [snd heap]. apply randperm_same.
Qed.

(** The graphs visited in the drawn order are the subset's graphs,
    rearranged. *)
Lemma drawn_items_perm (loader : DataLoaderT) (w : World) :
  loader_ok loader ->
  Permutation (picked (subset_items (dl_dataset loader)) (fst (drawn_order loader w)))
              (subset_items (dl_dataset loader)).
Proof.
  intros [_ Hv].
  rewrite <- (picked_all (subset_items (dl_dataset loader))) at 2.
  rewrite (subset_items_length _ Hv).
  unfold picked. apply Permutation_flat_map, drawn_order_perm.
Qed.

(** The stacked output of the test loop: one row of prediction and target
    per graph visited. *)
Lemma test_loop_rows (loader : DataLoaderT) (loss_fn : LossFn) (h0 : Heap) :
  loader_ok loader ->
  forall batches w,
    (forall idxs i, In idxs batches -> In i idxs -> i < subset_len (dl_dataset loader)) ->
    (forall g, predict (heap w) g = predict h0 g) ->
    wp (for_collect batches
          (fun idxs =>
             data <- fetch loader idxs ;;
             pred <- call_heap (forward data) ;;
             let loss := loss_fn pred (map graph_y data) in
             concatenated_batch <- cat_dim1 pred (map graph_y data) ;;
             ret concatenated_batch)) w
       (fun output w' =>
          concat output
          = map (fun g => [predict h0 g; graph_y g])
                (picked (subset_items (dl_dataset loader)) (concat batches)) /\
          log w' = log w /\ studies w' = studies w).
Proof.
  intros Hok. induction batches as [|idxs batches IH]; intros w Hr Hp.
  - simpl. apply wp_ret. repeat split.
  - cbn [for_collect]. apply wp_bind. apply wp_bind.
    apply wp_fetch_picked; [exact Hok | |].
    { intros i Hi. apply (Hr idxs i); [now left | exact Hi]. }
    set (data := picked (subset_items (dl_dataset loader)) idxs).
    apply wp_bind, wp_call_heap. cbv zeta.
    rewrite (forward_predictions h0 (heap w) data Hp).
    apply wp_bind. unfold cat_dim1. rewrite !length_map, Nat.eqb_refl.
    apply wp_ret, wp_ret. apply wp_bind.
    eapply wp_mono; [apply IH|].
    + intros idxs' i Hin Hi. apply (Hr idxs' i); [now right | exact Hi].
    + intros g. cbn [heap]. rewrite forward_same. apply Hp.
    + intros output w' (Hc & Hlog & Hst). apply wp_ret.
      cbn [concat]. rewrite Hc, picked_app, map_app, rows_map. fold data.
      repeat split; [exact Hlog | exact Hst].
Qed.
End EvaluatorFacts.

(** X8. With the mean-squared-error loss and a model that predicts graph
    by graph, [validate] on a non-empty, well-formed loader returns the mean
    squared error over all graphs of the subset, under the model as it is
    when the call starts evaluating: the weighting by batch sample counts
    makes the result independent of the batch size and of shuffling. *)
Theorem validate_is_subset_mse (T : Torch) (TL : TorchLaws T)
        (predict : Heap -> Graph -> Q) (PG : PerGraphForward T predict)
        (loader : DataLoaderT) (w : World) :
  loader_ok loader -> 0 < subset_len (dl_dataset loader) ->
  exists v w',
    validate loader mse_loss w = Ok v w' /\
    (v == mse (map (predict (model_eval (set_grad_enabled false (heap w))))
                   (subset_items (dl_dataset loader)))
              (map graph_y (subset_items (dl_dataset loader))))%Q.
Proof.
  intros Hok Hn.
  set (h1 := model_eval (set_grad_enabled false (heap w))).
  set (items := subset_items (dl_dataset loader)).
  apply wp_ok. unfold validate. apply wp_no_grad.
  apply wp_bind, wp_on_heap. apply wp_bind, wp_loader_batches.
  match goal with |- context [drawn_order loader ?w0] => set (w2 := w0) in * end.
  apply wp_bind.
  eapply wp_mono; [apply (validate_loop_mse loader h1 Hok)|].
  - intros idxs i Hin Hi.
    apply (drawn_batch_in_range loader w2 idxs i); [apply Hok | exact Hin | exact Hi].
  - intros g. rewrite drawn_order_predict. reflexivity.
  - intros [v n] w' [Hv Hcount]. cbn [fst snd] in Hv, Hcount.
    rewrite batched_concat in Hv, Hcount; [| apply Hok | apply Nat.le_refl
                                           | apply Hok | apply Nat.le_refl].
    rewrite (Permutation_length (drawn_order_perm loader w2)), length_seq in Hcount.
    cbn [Nat.add] in Hcount.
    destruct (n =? 0) eqn:E; [apply Nat.eqb_eq in E; lia|].
    apply wp_ret.
    unfold mse. rewrite squared_errors_map.
    change (fun x : Graph => sq (predict h1 x - graph_y x))
      with (graph_sq_error (predict h1)).
    unfold np_mean. rewrite length_map.
    fold items. unfold items at 2. rewrite (subset_items_length _ (proj2 Hok)).
    rewrite Hcount. apply Qdiv_comp; [|reflexivity].
    rewrite Hv, Qplus_0_l. apply Qsum_perm, Permutation_map.
    apply (drawn_items_perm loader w2 Hok).
Qed.


Lemma toy_per_graph : PerGraphForward toy_torch toy_predict.
Proof. constructor; intros; reflexivity. Qed.

Lemma validate_is_subset_mse_witness :
  exists v w',
    @validate toy_torch (toy_loader (toy_dataset 5) 2) mse_loss (toy_world (1 # 2))
    = Ok v w' /\
    (v == mse (map (toy_predict (@model_eval toy_torch
                                   (@set_grad_enabled toy_torch false
                                      (heap (toy_world (1 # 2))))))
                   (@subset_items toy_torch (dl_dataset (toy_loader (toy_dataset 5) 2))))
              (map (@graph_y toy_torch)
                   (@subset_items toy_torch (dl_dataset (toy_loader (toy_dataset 5) 2)))))%Q.
Proof.
  apply (validate_is_subset_mse toy_torch toy_torch_laws toy_predict toy_per_graph
           (toy_loader (toy_dataset 5) 2) (toy_world (1 # 2))).
  - split; [vm_compute; lia | vm_compute; repeat constructor].
  - vm_compute. lia.
Defined.

Section TestFacts.
Context {T : Torch} {TL : TorchLaws T}.

Lemma fails_no_grad {A} (m : M World A) (w : World) (e : exn) (post : World -> Prop) :
  fails m {| heap := set_grad_enabled false (heap w); log := log w; studies := studies w |}
        e (fun w' => post {| heap := set_grad_enabled (grad_enabled (heap w)) (heap w');
                             log := log w'; studies := studies w' |}) ->
  fails (no_grad m) w e post.
Proof.
  unfold fails, no_grad, finally, bind, on_heap, modify.
  destruct (m _); [intros [] | intros H; exact H].
Qed.
End TestFacts.

(** X9. On a loader that does not shuffle, over a subset of at least two
    graphs, and with a model that predicts graph by graph, [test] returns
    the mean squared error between row 1 and row 0 of the stacked output,
    that is between the pair (prediction, target) of the second graph and
    that of the first; the other graphs do not enter the metric.  It logs
    that one value. *)
Theorem test_metric_of_first_two_rows (T : Torch) (TL : TorchLaws T)
        (predict : Heap -> Graph -> Q) (PG : PerGraphForward T predict)
        (loader : DataLoaderT) (loss_fn : LossFn) (w : World)
        (g0 g1 : Graph) (others : list Graph) :
  loader_ok loader -> dl_shuffle loader = false ->
  subset_items (dl_dataset loader) = g0 :: g1 :: others ->
  exists w',
    test loader loss_fn w
    = Ok (mse [predict (model_eval (set_grad_enabled false (heap w))) g1; graph_y g1]
              [predict (model_eval (set_grad_enabled false (heap w))) g0; graph_y g0])
         w' /\
    log w' = log w
             ++ [LogTestMSE
                   (mse [predict (model_eval (set_grad_enabled false (heap w))) g1;
                         graph_y g1]
                        [predict (model_eval (set_grad_enabled false (heap w))) g0;
                         graph_y g0])].
Proof.
  intros Hok Hsh Hitems.
  set (h1 := model_eval (set_grad_enabled false (heap w))).
  assert (Hrun : wp (test loader loss_fn) w
            (fun v w' =>
               v = mse [predict h1 g1; graph_y g1] [predict h1 g0; graph_y g0] /\
               log w' = log w ++ [LogTestMSE v])).
  { unfold test. apply wp_no_grad.
    apply wp_bind, wp_on_heap. apply wp_bind, wp_loader_batches.
    match goal with |- context [drawn_order loader ?w0] => set (w2 := w0) in * end.
    assert (Horder : drawn_order loader w2
                     = (seq 0 (subset_len (dl_dataset loader)), w2)).
    { unfold drawn_order. now rewrite Hsh. }
    apply wp_bind.
    eapply wp_mono; [apply (test_loop_rows loader loss_fn h1 Hok)|].
    - intros idxs i Hin Hi.
      apply (drawn_batch_in_range loader w2 idxs i); [apply Hok | exact Hin | exact Hi].
    - intros g. rewrite drawn_order_predict. reflexivity.
    - intros output w' (Hc & Hlog & Hst).
      rewrite batched_concat in Hc; [| apply Hok | apply Nat.le_refl].
      rewrite Horder in Hc, Hlog. cbn [fst snd] in Hc, Hlog.
      rewrite <- (subset_items_length _ (proj2 Hok)), picked_all, Hitems in Hc.
      cbn [map] in Hc.
      apply wp_bind. unfold cat_dim0.
      destruct output as [|o output]; [discriminate|].
      apply wp_ret. rewrite Hc.
      apply wp_bind. unfold tensor_getitem. cbn [nth_error]. apply wp_ret.
      apply wp_bind, wp_ret. apply wp_bind.
      unfold mean_squared_error. cbn [length Nat.eqb negb].
      apply wp_ret. apply wp_bind, wp_logger_info, wp_ret.
      split; [reflexivity|]. cbn [log]. now rewrite Hlog. }
  apply wp_ok in Hrun. destruct Hrun as (v & w' & Heq & -> & Hlog).
  exists w'. split; assumption.
Qed.

Lemma test_metric_of_first_two_rows_witness :
  exists w',
    @test toy_torch (toy_loader (toy_dataset 4) 32) mse_loss (toy_world (1 # 2))
    = Ok (mse [toy_predict (@model_eval toy_torch
                              (@set_grad_enabled toy_torch false
                                 (heap (toy_world (1 # 2))))) (toy_graph 1);
               @graph_y toy_torch (toy_graph 1)]
              [toy_predict (@model_eval toy_torch
                              (@set_grad_enabled toy_torch false
                                 (heap (toy_world (1 # 2))))) (toy_graph 0);
               @graph_y toy_torch (toy_graph 0)])
         w' /\
    log w' = log (toy_world (1 # 2))
             ++ [LogTestMSE
                   (mse [toy_predict (@model_eval toy_torch
                                        (@set_grad_enabled toy_torch false
                                           (heap (toy_world (1 # 2))))) (toy_graph 1);
                         @graph_y toy_torch (toy_graph 1)]
                        [toy_predict (@model_eval toy_torch
                                        (@set_grad_enabled toy_torch false
                                           (heap (toy_world (1 # 2))))) (toy_graph 0);
                         @graph_y toy_torch (toy_graph 0)])].
Proof.
  apply (test_metric_of_first_two_rows toy_torch toy_torch_laws toy_predict toy_per_graph
           (toy_loader (toy_dataset 4) 32) mse_loss (toy_world (1 # 2))
           (toy_graph 0) (toy_graph 1) [toy_graph 2; toy_graph 3]).
  - split; [vm_compute; lia | vm_compute; repeat constructor].
  - reflexivity.
  - reflexivity.
Defined.

(** X10. On a loader without samples [test] fails with a runtime error
    when it concatenates its empty list of batches; it logs nothing. *)
Theorem test_on_empty_loader (T : Torch) (TL : TorchLaws T)
        (loader : DataLoaderT) (loss_fn : LossFn) (w : World) :
  subset_len (dl_dataset loader) = 0 ->
  fails (test loader loss_fn) w RuntimeError (fun w' => log w' = log w).
Proof.
  intros H0. unfold test. apply fails_no_grad.
  apply fails_bind, wp_on_heap.
  unfold fails, bind. rewrite (loader_batches_empty loader _ H0).
  cbn [for_collect]. unfold ret, cat_dim0, raise. split; [reflexivity|].
  cbn [log].
  match goal with
  | |- log (snd (drawn_order loader ?w1)) = _ =>
      exact (proj1 (drawn_order_log loader w1))
  end.
Qed.

Lemma test_on_empty_loader_witness :
  fails (@test toy_torch (toy_loader [] 32) mse_loss) (toy_world 0) RuntimeError
        (fun w' => log w' = log (toy_world 0)).
Proof.
  apply (test_on_empty_loader toy_torch toy_torch_laws (toy_loader [] 32) mse_loss
           (toy_world 0)).
  reflexivity.
Defined.

Lemma test_fails_on_single_sample {T : Torch} {TL : TorchLaws T}
      (loader : DataLoaderT) (loss_fn : LossFn) (w : World) :
  loader_ok loader -> subset_len (dl_dataset loader) = 1 ->
  fails (test loader loss_fn) w IndexError (fun w' => log w' = log w).
Proof.
  intros Hok H1. unfold test. apply fails_no_grad.
  apply fails_bind, wp_on_heap. apply fails_bind, wp_loader_batches.
  match goal with |- context [drawn_order loader ?w0] => set (w2 := w0) in * end.
  pose proof (drawn_order_log loader w2) as [Hlog0 _].
  apply fails_bind.
  eapply wp_mono; [apply (test_loop loader loss_fn Hok)|].
  - intros idxs i Hin Hi.
    apply (drawn_batch_in_range loader w2 idxs i); [apply Hok | exact Hin | exact Hi].
  - intros output w' (Hc & _ & Hlog & _).
    rewrite (drawn_batches_total loader w2 (proj1 Hok)), H1 in Hc.
    apply fails_bind. unfold cat_dim0.
    destruct output as [|o output]; [discriminate|].
    apply wp_ret.
    destruct (concat (o :: output)) as [|row0 [|row1 stacked]]; try discriminate.
    apply fails_first. unfold tensor_getitem. cbn [nth_error].
    apply fails_raise. cbn [log]. now rewrite Hlog, Hlog0.
Qed.

(** X11. On a well-formed loader over exactly one sample [test] fails with
    an index error when it reads row 1 of the stacked output; it logs
    nothing. *)
Theorem test_on_single_sample (T : Torch) (TL : TorchLaws T)
        (loader : DataLoaderT) (loss_fn : LossFn) (w : World) :
  loader_ok loader -> subset_len (dl_dataset loader) = 1 ->
  fails (test loader loss_fn) w IndexError (fun w' => log w' = log w).
Proof. apply test_fails_on_single_sample. Qed.

Lemma test_on_single_sample_witness :
  fails (@test toy_torch (toy_loader (toy_dataset 1) 32) mse_loss) (toy_world 0)
        IndexError (fun w' => log w' = log (toy_world 0)).
Proof.
  apply (test_on_single_sample toy_torch toy_torch_laws
           (toy_loader (toy_dataset 1) 32) mse_loss (toy_world 0)).
  - split; [vm_compute; lia | vm_compute; repeat constructor].
  - reflexivity.
Defined.

(** ** What the objective and the orchestrator read *)

(** X12. The objective reads of its pool [train_val_data] nothing but the
    length: two pools with the same number of samples give the same run,
    from every world, whatever graphs they hold. *)
Theorem cv_objective_reads_pool_length (T : Torch) (R : RandomState) (O : Optuna)
        (dataset : list Graph) (trial : Trial) (k_inner : nat)
        (pool1 pool2 : SubsetT) (loss_fn : LossFn) (num_epochs : nat) (w : World) :
  subset_len pool1 = subset_len pool2 ->
  cv_objective dataset trial k_inner pool1 loss_fn num_epochs w
  = cv_objective dataset trial k_inner pool2 loss_fn num_epochs w.
Proof. intros H. unfold cv_objective. rewrite H. reflexivity. Qed.

Lemma cv_objective_reads_pool_length_witness :
  @cv_objective toy_torch toy_random toy_optuna (toy_dataset 6) (fresh_trial 0 0) 2
                (@Subset toy_torch (toy_dataset 6) [2; 3; 4; 5]) mse_loss 1 (toy_world 0)
  = @cv_objective toy_torch toy_random toy_optuna (toy_dataset 6) (fresh_trial 0 0) 2
                  (@Subset toy_torch [] [0; 0; 0; 0]) mse_loss 1 (toy_world 0).
Proof.
  apply (cv_objective_reads_pool_length toy_torch toy_random toy_optuna
           (toy_dataset 6) (fresh_trial 0 0) 2
           (@Subset toy_torch (toy_dataset 6) [2; 3; 4; 5])
           (@Subset toy_torch [] [0; 0; 0; 0]) mse_loss 1 (toy_world 0)).
  reflexivity.
Defined.

(** X13. Three of the keys the experiment unpacks are never used:
    [optimizer_class], [batch_size] and [n_trials].  Two configurations that
    differ in nothing but these three run identically on the same model from
    the same world: the same result and the same final world.  (The model
    instance of [config['model']] is the one of the world, so it is the same
    in both runs.) *)
Theorem experiment_ignores_three_keys (T : Torch) (R : RandomState) (O : Optuna)
        (c1 c2 : Config) (w : World) :
  cfg_dataset c1 = cfg_dataset c2 ->
  cfg_loss_fn c1 = cfg_loss_fn c2 ->
  cfg_num_epochs c1 = cfg_num_epochs c2 ->
  cfg_k_inner c1 = cfg_k_inner c2 ->
  cfg_k_outer c1 = cfg_k_outer c2 ->
  cfg_objective c1 = cfg_objective c2 ->
  cfg_timeout_optuna c1 = cfg_timeout_optuna c2 ->
  nested_cv_experiment c1 w = nested_cv_experiment c2 w.
Proof.
  destruct c1, c2. simpl. intros -> -> -> -> -> -> ->. reflexivity.
Qed.

Lemma experiment_ignores_three_keys_witness :
  @nested_cv_experiment toy_torch toy_random toy_optuna (toy_config 6 3 2 1 8)
                        (toy_world 0)
  = @nested_cv_experiment toy_torch toy_random toy_optuna (toy_config 6 3 2 5 64)
                          (toy_world 0).
Proof.
  apply (experiment_ignores_three_keys toy_torch toy_random toy_optuna
           (toy_config 6 3 2 1 8) (toy_config 6 3 2 5 64) (toy_world 0));
    reflexivity.
Defined.

(** ** Rejected fold counts and an exhausted time budget *)

(** X14. With fewer than two inner folds, or with a pool that holds fewer
    samples than inner folds, the objective fails with a value error; it has
    logged its opening record and no epoch. *)
Theorem cv_objective_rejects_folds (T : Torch) (R : RandomState) (O : Optuna)
        (dataset : list Graph) (trial : Trial) (k_inner : nat)
        (train_val_data : SubsetT) (loss_fn : LossFn) (num_epochs : nat) (w : World) :
  k_inner <= 1 \/ subset_len train_val_data < k_inner ->
  fails (cv_objective dataset trial k_inner train_val_data loss_fn num_epochs) w
        ValueError (fun w' => log w' = log w ++ [LogInnerCV]).
Proof.
  intros Hbad. unfold cv_objective. apply fails_bind, wp_logger_info.
  destruct (k_inner <=? 1) eqn:Ek.
  - apply fails_first. unfold KFold. rewrite Ek. now apply fails_raise.
  - apply Nat.leb_gt in Ek. destruct Hbad as [Hbad | Hbad]; [lia|].
    apply fails_bind, wp_KFold; [lia|].
    destruct (suggest_float trial "lr" (1 # 100000) (1 # 100)) as [lr trial1].
    destruct (suggest_float trial1 "weight_decay" (1 # 100000) (1 # 1000))
      as [weight_decay trial2].
    apply fails_bind, wp_call_heap. apply fails_first.
    unfold split. cbn [n_splits].
    destruct (subset_len train_val_data <? k_inner) eqn:E;
      [|apply Nat.ltb_ge in E; lia].
    now apply fails_raise.
Qed.

Lemma cv_objective_rejects_folds_witness :
  fails (@cv_objective toy_torch toy_random toy_optuna (toy_dataset 6) (fresh_trial 0 0) 3
                       (@Subset toy_torch (toy_dataset 6) [4; 5]) mse_loss 1)
        (toy_world 0) ValueError
        (fun w' => log w' = log (toy_world 0) ++ [LogInnerCV]).
Proof.
  apply (cv_objective_rejects_folds toy_torch toy_random toy_optuna (toy_dataset 6)
           (fresh_trial 0 0) 3 (@Subset toy_torch (toy_dataset 6) [4; 5]) mse_loss 1
           (toy_world 0)).
  right. vm_compute. lia.
Defined.

(** X15. With fewer than two outer folds, or with more outer folds than
    samples, the experiment fails with a value error before it logs
    anything or touches the model: the world is as before. *)
Theorem experiment_rejects_folds (T : Torch) (R : RandomState) (O : Optuna)
        (config : Config) (w : World) :
  cfg_k_outer config <= 1 \/ length (cfg_dataset config) < cfg_k_outer config ->
  nested_cv_experiment config w = Raise ValueError w.
Proof.
  intros Hbad. unfold nested_cv_experiment. cbv zeta. unfold bind at 1, KFold.
  destruct (cfg_k_outer config <=? 1) eqn:Ek; [reflexivity|].
  apply Nat.leb_gt in Ek. destruct Hbad as [Hbad | Hbad]; [lia|].
  unfold ret at 1. unfold bind at 1, split. cbn [n_splits].
  destruct (length (cfg_dataset config) <? cfg_k_outer config) eqn:E;
    [reflexivity | apply Nat.ltb_ge in E; lia].
Qed.

Lemma experiment_rejects_folds_witness :
  @nested_cv_experiment toy_torch toy_random toy_optuna (toy_config 3 5 2 2 32)
                        (toy_world 0)
  = Raise ValueError (toy_world 0).
Proof.
  apply (experiment_rejects_folds toy_torch toy_random toy_optuna
           (toy_config 3 5 2 2 32) (toy_world 0)).
  right. vm_compute. lia.
Defined.

Section OuterFoldFacts.
Context {T : Torch} {TL : TorchLaws T} {R : RandomState} {RL : RandomStateLaws R}
        {O : Optuna}.

(** The test side of every split has one of the fold sizes. *)
Lemma split_test_sizes {W : Type} (kf : KFoldT) (n : nat) (w : W) :
  2 <= n_splits kf -> n_splits kf <= n ->
  wp (split kf n) w
     (fun splits _ =>
        forall train test, In (train, test) splits ->
                           In (length test) (fold_sizes (n_splits kf) n)).
Proof.
  intros Hk Hn.
  assert (Hpos : 0 < n_splits kf) by lia.
  pose proof (iter_test_indices_concat kf n Hpos) as Hperm.
  assert (Hnd : NoDup (concat (iter_test_indices kf n))).
  { apply (Permutation_NoDup (Permutation_sym Hperm)), seq_NoDup. }
  unfold wp, split.
  destruct (n <? n_splits kf) eqn:E'; [apply Nat.ltb_lt in E'; lia|].
  unfold ret. intros train test Hin.
  apply in_map_iff in Hin. destruct Hin as (run & Heq & Hrun).
  injection Heq as <- <-.
  assert (Hrnd : NoDup run).
  { clear - Hnd Hrun. induction (iter_test_indices kf n) as [|r rs IH];
      [contradiction|].
    simpl in Hnd. destruct Hrun as [-> | Hrun].
    - now apply NoDup_app_remove_r in Hnd.
    - apply IH; [now apply NoDup_app_remove_l in Hnd | assumption]. }
  assert (Hrlt : forall x, In x run -> x < n).
  { intros x Hx.
    assert (Hc : In x (concat (iter_test_indices kf n))).
    { apply in_concat. now exists run. }
    apply (Permutation_in _ Hperm), in_seq in Hc. lia. }
  rewrite (Permutation_length (mask_permutation n run Hrnd Hrlt)).
  unfold iter_test_indices in Hrun.
  destruct (Forall2_In_l _ _ _ run
              (runs_sizes (fold_sizes (n_splits kf) n) _ ltac:(
                 rewrite fold_sizes_sum by lia;
                 rewrite (Permutation_length (indices_permutation kf n)), length_seq;
                 apply Nat.le_refl)) Hrun) as (s & Hs & Hl).
  now rewrite Hl.
Qed.

Lemma enumerate_cons {A} (x : A) (l : list A) :
  exists rest, enumerate (x :: l) = (0, x) :: rest.
Proof. unfold enumerate. simpl. eexists. reflexivity. Qed.
End OuterFoldFacts.

(** X16. When the time budget of the search is already exhausted as the
    first study starts, the experiment (with accepted outer fold counts)
    fails with a value error in its first outer fold: the study has no
    finished trial to take the best of.  Until then it has logged the fold,
    its lengths and the start of the search, and called no objective. *)
Theorem experiment_without_time (T : Torch) (R : RandomState) (RL : RandomStateLaws R)
        (O : Optuna) (config : Config) (w : World) :
  2 <= cfg_k_outer config -> cfg_k_outer config <= length (cfg_dataset config) ->
  timed_out (cfg_timeout_optuna config) (studies w) 0 = true ->
  fails (nested_cv_experiment config) w ValueError
        (fun w' => exists n_train n_test,
           log w' = log w ++ [LogFold 0 (cfg_k_outer config);
                              LogLengths n_train n_test (n_test + n_train);
                              LogOptimizing]).
Proof.
  intros Hk Hn Hclock. unfold nested_cv_experiment. cbv zeta.
  apply fails_bind, wp_KFold; [exact Hk|].
  apply fails_bind.
  eapply wp_mono; [apply split_ok; simpl; lia|].
  intros splits w0 (-> & Hlen & _). simpl in Hlen.
  destruct splits as [|[train_ids test_ids] splits]; [simpl in Hlen; lia|].
  destruct (enumerate_cons (train_ids, test_ids) splits) as (rest & ->).
  apply fails_first. cbn [for_collect]. apply fails_first.
  apply fails_bind, wp_logger_info. apply fails_bind, wp_logger_info.
  apply fails_bind, wp_on_heap. apply fails_bind, wp_logger_info.
  apply fails_bind, wp_create_study. apply fails_bind.
  cbn [optimize trials length study_id studies]. rewrite Hclock.
  apply wp_ret. apply fails_first.
  unfold best_trial. cbn [trials]. apply fails_raise.
  exists (length train_ids), (length test_ids). cbn [log].
  now rewrite <- !app_assoc.
Qed.

Lemma experiment_without_time_witness :
  fails (@nested_cv_experiment toy_torch toy_random expired_optuna
           {| cfg_dataset := toy_dataset 6;
              cfg_loss_fn := mse_loss;
              cfg_optimizer_class := TorchOptimAdam;
              cfg_num_epochs := 2;
              cfg_batch_size := 32;
              cfg_k_inner := 2;
              cfg_k_outer := 3;
              cfg_objective :=
                @cv_objective toy_torch toy_random expired_optuna (toy_dataset 6);
              cfg_n_trials := 2;
              cfg_timeout_optuna := 0 |})
        (toy_world 0) ValueError
        (fun w' => exists n_train n_test,
           log w' = log (toy_world 0)
                    ++ [LogFold 0 3; LogLengths n_train n_test (n_test + n_train);
                        LogOptimizing]).
Proof.
  apply (experiment_without_time toy_torch toy_random toy_random_laws expired_optuna
           {| cfg_dataset := toy_dataset 6;
              cfg_loss_fn := mse_loss;
              cfg_optimizer_class := TorchOptimAdam;
              cfg_num_epochs := 2;
              cfg_batch_size := 32;
              cfg_k_inner := 2;
              cfg_k_outer := 3;
              cfg_objective :=
                @cv_objective toy_torch toy_random expired_optuna (toy_dataset 6);
              cfg_n_trials := 2;
              cfg_timeout_optuna := 0 |}
           (toy_world 0)).
  - simpl. lia.
  - vm_compute. lia.
  - reflexivity.
Defined.

Lemma wp_conj {W A} (m : M W A) (w : W) (P Q : A -> W -> Prop) :
  wp m w P -> wp m w Q -> wp m w (fun a w' => P a w' /\ Q a w').
Proof. unfold wp. destruct (m w); [intros HP HQ; now split | intros []]. Qed.

Lemma fold_sizes_leave_one_out (k s : nat) :
  0 < k -> In s (fold_sizes k k) -> s = 1.
Proof.
  intros Hk Hs. apply fold_size_cases in Hs.
  rewrite Nat.div_same, Nat.Div0.mod_same in Hs by lia.
  destruct Hs as [-> | [_ Hs]]; [reflexivity | lia].
Qed.

(** X17. Leave-one-out outer cross-validation cannot finish: with as many
    outer folds as samples, and inner fold counts, a global dataset and a
    time budget that let the first search and the retraining go through, the
    experiment fails in its first outer fold with an index error, raised by
    [test] on the single held-out sample; no test metric has been logged. *)
Theorem leave_one_out_fails (T : Torch) (TL : TorchLaws T)
        (R : RandomState) (RL : RandomStateLaws R) (O : Optuna)
        (dataset : list Graph) (config : Config) (w : World) :
  cfg_objective config = cv_objective dataset ->
  2 <= cfg_k_outer config ->
  length (cfg_dataset config) = cfg_k_outer config ->
  2 <= cfg_k_inner config ->
  cfg_k_inner config + 1 <= length (cfg_dataset config) ->
  length (cfg_dataset config) <= length dataset ->
  timed_out (cfg_timeout_optuna config) (studies w) 0 = false ->
  fails (nested_cv_experiment config) w IndexError
        (fun w' => test_metrics (log w') = test_metrics (log w)).
Proof.
  intros Hobj Hko Hloo Hki Hpool Hglobal Hclock.
  unfold nested_cv_experiment. cbv zeta.
  set (n := length (cfg_dataset config)) in *.
  apply fails_bind, wp_KFold; [exact Hko|].
  apply fails_bind.
  eapply wp_mono;
    [apply wp_conj; [apply split_ok | apply split_test_sizes]; simpl; lia|].
  intros splits w0 [(-> & Hlen & Hsplits) Hsizes]. simpl in Hlen, Hsplits, Hsizes.
  destruct splits as [|[train_ids test_ids] splits]; [simpl in Hlen; lia|].
  destruct (enumerate_cons (train_ids, test_ids) splits) as (rest & ->).
  destruct (Hsplits train_ids test_ids (or_introl eq_refl))
    as (Htr & Hte & Hsum & _ & Htr0 & _).
  assert (Hone : length test_ids = 1).
  { apply (fold_sizes_leave_one_out (cfg_k_outer config)); [lia|].
    rewrite <- Hloo at 2. fold n. apply (Hsizes train_ids test_ids). now left. }
  apply fails_first. cbn [for_collect]. apply fails_first.
  apply fails_bind, wp_logger_info. apply fails_bind, wp_logger_info.
  apply fails_bind, wp_on_heap. apply fails_bind, wp_logger_info.
  apply fails_bind, wp_create_study.
  rewrite Hobj.
  assert (Hspec : forall trial w0,
             wp (cv_objective dataset trial (cfg_k_inner config)
                              (Subset (cfg_dataset config) train_ids)
                              (cfg_loss_fn config) (cfg_num_epochs config)) w0
                (fun r w' => has_hparams (t_params (snd r)) /\
                             test_metrics (log w') = test_metrics (log w0))).
  { intros trial w0. apply cv_objective_ok; [exact Hki | |];
      unfold subset_len; simpl; lia. }
  apply fails_bind.
  eapply wp_mono; [apply optimize_first; [exact Hspec | reflexivity | exact Hclock]|].
  intros study w3 (Hall & Hne & Hlog3).
  apply fails_bind, wp_best_trial; [exact Hne|].
  intros best Hbest.
  rewrite Forall_forall in Hall. destruct (Hall best Hbest) as [Hlr Hwd].
  apply fails_bind, wp_logger_info.
  apply fails_bind, wp_dict_getitem; [exact Hlr|]. intros lr.
  apply fails_bind, wp_dict_getitem; [exact Hwd|]. intros weight_decay.
  apply fails_bind, wp_call_heap.
  apply fails_bind, wp_logger_info. apply fails_bind, wp_on_heap.
  apply fails_bind, wp_DataLoader; [lia | discriminate |].
  apply fails_bind.
  eapply wp_mono; [apply train_ok|].
  - split; [simpl; lia | exact Htr].
  - exact Htr0.
  - intros _ w4 [Hlog4 _].
    apply fails_bind, wp_DataLoader; [lia | discriminate |].
    apply fails_first.
    eapply fails_mono; [apply test_fails_on_single_sample|].
    + split; [simpl; lia | exact Hte].
    + exact Hone.
    + intros w5 Hlog5. cbn beta in Hlog5. rewrite Hlog5, Hlog4. log_simpl.
      rewrite Hlog3. log_simpl. reflexivity.
Qed.

Lemma leave_one_out_fails_witness :
  fails (@nested_cv_experiment toy_torch toy_random toy_optuna (toy_config 4 4 2 2 32))
        (toy_world 0) IndexError
        (fun w' => test_metrics (log w') = test_metrics (log (toy_world 0))).
Proof.
  apply (leave_one_out_fails toy_torch toy_torch_laws toy_random toy_random_laws
           toy_optuna (toy_dataset 4) (toy_config 4 4 2 2 32) (toy_world 0)).
  - reflexivity.
  - simpl. lia.
  - reflexivity.
  - simpl. lia.
  - vm_compute. lia.
  - vm_compute. lia.
  - reflexivity.
Defined.

(** ** What one objective call and one search log *)

Lemma objective_calls_app (l1 l2 : list LogRecord) :
  objective_calls (l1 ++ l2) = objective_calls l1 + objective_calls l2.
Proof.
  induction l1 as [|r l1 IH]; simpl; [reflexivity|].
  destruct r; simpl; now rewrite ?IH.
Qed.

Lemma objective_calls_epochs (start : nat) (losses : list Q) :
  objective_calls (epoch_records start losses) = 0.
Proof.
  unfold epoch_records. revert start.
  induction losses as [|l losses IH]; intros start; simpl; [reflexivity | apply IH].
Qed.

Lemma objective_calls_blocks (blocks : list (list Q)) :
  objective_calls (concat (map (epoch_records 0) blocks)) = 0.
Proof.
  induction blocks as [|b blocks IH]; simpl; [reflexivity|].
  now rewrite objective_calls_app, objective_calls_epochs, IH.
Qed.

Section ObjectiveLog.
Context {T : Torch} {TL : TorchLaws T} {R : RandomState} {RL : RandomStateLaws R}
        {O : Optuna}.

Lemma train_log (num_epochs : nat) (loader : DataLoaderT) (optimizer : Optimizer)
      (loss_fn : LossFn) (w : World) :
  loader_ok loader -> 0 < subset_len (dl_dataset loader) ->
  wp (train num_epochs loader optimizer loss_fn) w
     (fun _ w' => exists losses,
          length losses = num_epochs /\ log w' = log w ++ epoch_records 0 losses).
Proof.
  intros Hok Hn.
  destruct (epochs_loop loader optimizer loss_fn Hok Hn num_epochs 0
              {| heap := model_train (heap w); log := log w; studies := studies w |})
    as (losses & w' & Hloop & Hlen & Hlog).
  apply wp_ok. exists tt, w'. split; [|now exists losses].
  unfold train, bind at 1, on_heap, modify, for_each. exact Hloop.
Qed.

(** One objective call logs its opening record and then, fold by fold, the
    epochs of that fold. *)
Lemma cv_objective_log (dataset : list Graph) (trial : Trial) (k_inner : nat)
      (train_val_data : SubsetT) (loss_fn : LossFn) (num_epochs : nat) (w : World) :
  2 <= k_inner -> k_inner <= subset_len train_val_data ->
  subset_len train_val_data <= length dataset ->
  wp (cv_objective dataset trial k_inner train_val_data loss_fn num_epochs) w
     (fun r w' =>
        has_hparams (t_params (snd r)) /\
        exists blocks,
          length blocks = k_inner /\
          Forall (fun b => length b = num_epochs) blocks /\
          log w' = log w ++ LogInnerCV :: concat (map (epoch_records 0) blocks)).
Proof.
  intros Hk Hn Hd. unfold cv_objective.
  apply wp_bind, wp_logger_info.
  apply wp_bind, wp_KFold; [exact Hk|].
  pose proof (suggest_float_has trial "lr" (1 # 100000) (1 # 100)) as Hlr.
  destruct (suggest_float trial "lr" (1 # 100000) (1 # 100)) as [lr trial1].
  pose proof (suggest_float_has trial1 "weight_decay" (1 # 100000) (1 # 1000)) as Hwd.
  pose proof (suggest_float_keeps trial1 "weight_decay" "lr" (1 # 100000) (1 # 1000) Hlr)
    as Hlr'.
  destruct (suggest_float trial1 "weight_decay" (1 # 100000) (1 # 1000))
    as [weight_decay trial2].
  simpl in Hlr, Hwd, Hlr'.
  apply wp_bind, wp_call_heap.
  apply wp_bind.
  eapply wp_mono; [apply split_ok; simpl; assumption|].
  intros splits w1 (-> & Hlen & Hsplits). simpl in Hlen, Hsplits.
  apply wp_bind.
  eapply wp_mono.
  - apply (wp_for_collect
             (fun (done : list Q) w' =>
                exists blocks,
                  length blocks = length done /\
                  Forall (fun b => length b = num_epochs) blocks /\
                  log w' = (log w ++ [LogInnerCV])
                           ++ concat (map (epoch_records 0) blocks))).
    + exists []. repeat split; [constructor | simpl; now rewrite app_nil_r].
    + intros [fold_idx [train_idx valid_idx]] done w2 Hin (blocks & Hbl & Hall & Hlog).
      apply in_combine_r in Hin.
      destruct (Hsplits _ _ Hin) as (Htr & Hva & _ & _ & Htr0 & Hva0).
      apply wp_bind, wp_DataLoader; [lia | intros _; exact Htr0 |].
      apply wp_bind, wp_DataLoader; [lia | intros _; exact Hva0 |].
      apply wp_bind, wp_on_heap.
      apply wp_bind.
      eapply wp_mono; [apply train_log|].
      * split; [simpl; lia|]. simpl.
        eapply Forall_impl; [|exact Htr]. simpl. intros i Hi. lia.
      * exact Htr0.
      * intros _ w3 (losses & Hlosses & Hlog3). cbn [log] in Hlog3. apply wp_bind.
        eapply wp_mono; [apply validate_ok|].
        -- split; [simpl; lia|]. simpl.
           eapply Forall_impl; [|exact Hva]. simpl. intros i Hi. lia.
        -- exact Hva0.
        -- intros loss_v w4 [Hlog4 _]. apply wp_ret.
           exists (blocks ++ [losses]). split; [|split].
           ++ rewrite !length_app. simpl. lia.
           ++ apply Forall_app. split; [exact Hall | now constructor].
           ++ rewrite Hlog4, Hlog3, Hlog, map_app, concat_app. simpl.
              now rewrite app_nil_r, <- !app_assoc.
  - intros inner_cv_loss w2 [(blocks & Hbl & Hall & Hlog) Hlen']. apply wp_ret. simpl.
    split; [split; assumption|].
    exists blocks. split; [|split; [exact Hall|]].
    + rewrite Hbl, Hlen'. unfold enumerate. rewrite length_combine, length_seq. lia.
    + rewrite Hlog, <- app_assoc. reflexivity.
Qed.
End ObjectiveLog.

(** X18. A call of the objective on a pool large enough for its folds
    trains every inner fold for [num_epochs] epochs: it appends to the log
    its opening record followed by [k_inner] blocks of [num_epochs] epoch
    records, each block numbered from epoch 0, and nothing else; the trial it
    leaves holds both hyperparameters. *)
Theorem cv_objective_trains_every_fold (T : Torch) (TL : TorchLaws T)
        (R : RandomState) (RL : RandomStateLaws R) (O : Optuna)
        (dataset : list Graph) (trial : Trial) (k_inner : nat)
        (train_val_data : SubsetT) (loss_fn : LossFn) (num_epochs : nat) (w : World) :
  2 <= k_inner -> k_inner <= subset_len train_val_data ->
  subset_len train_val_data <= length dataset ->
  exists value trial' w' blocks,
    cv_objective dataset trial k_inner train_val_data loss_fn num_epochs w
    = Ok (value, trial') w' /\
    has_hparams (t_params trial') /\
    length blocks = k_inner /\
    Forall (fun b => length b = num_epochs) blocks /\
    log w' = log w ++ LogInnerCV :: concat (map (epoch_records 0) blocks).
Proof.
  intros Hk Hn Hd.
  pose proof (cv_objective_log dataset trial k_inner train_val_data loss_fn num_epochs w
                               Hk Hn Hd) as Hrun.
  apply wp_ok in Hrun.
  destruct Hrun as ([value trial'] & w' & Heq & Hkeys & blocks & Hbl & Hall & Hlog).
  exists value, trial', w', blocks.
  split; [exact Heq|]. split; [exact Hkeys|]. split; [exact Hbl|].
  split; [exact Hall | exact Hlog].
Qed.

Lemma cv_objective_trains_every_fold_witness :
  exists value trial' w' blocks,
    @cv_objective toy_torch toy_random toy_optuna (toy_dataset 6) (fresh_trial 0 0) 2
                  (@Subset toy_torch (toy_dataset 6) [2; 3; 4; 5]) mse_loss 3
                  (toy_world 0)
    = Ok (value, trial') w' /\
    has_hparams (t_params trial') /\
    length blocks = 2 /\
    Forall (fun b => length b = 3) blocks /\
    log w' = log (toy_world 0) ++ LogInnerCV :: concat (map (epoch_records 0) blocks).
Proof.
  apply (cv_objective_trains_every_fold toy_torch toy_torch_laws toy_random
           toy_random_laws toy_optuna (toy_dataset 6) (fresh_trial 0 0) 2
           (@Subset toy_torch (toy_dataset 6) [2; 3; 4; 5]) mse_loss 3 (toy_world 0)).
  - lia.
  - vm_compute. lia.
  - vm_compute. lia.
Defined.

(** ** The log of the experiment, fold by fold *)

Lemma test_metrics_epochs (start : nat) (losses : list Q) :
  test_metrics (epoch_records start losses) = [].
Proof.
  unfold epoch_records. revert start.
  induction losses as [|l losses IH]; intros start; simpl; [reflexivity | apply IH].
Qed.

Lemma test_metrics_blocks (blocks : list (list Q)) :
  test_metrics (concat (map (epoch_records 0) blocks)) = [].
Proof.
  induction blocks as [|b blocks IH]; simpl; [reflexivity|].
  now rewrite test_metrics_app, test_metrics_epochs, IH.
Qed.

Lemma fold_starts_app (l1 l2 : list LogRecord) :
  fold_starts (l1 ++ l2) = fold_starts l1 + fold_starts l2.
Proof.
  induction l1 as [|r l1 IH]; simpl; [reflexivity|].
  destruct r; simpl; now rewrite ?IH.
Qed.

Lemma fold_starts_epochs (start : nat) (losses : list Q) :
  fold_starts (epoch_records start losses) = 0.
Proof.
  unfold epoch_records. revert start.
  induction losses as [|l losses IH]; intros start; simpl; [reflexivity | apply IH].
Qed.

Lemma fold_starts_blocks (blocks : list (list Q)) :
  fold_starts (concat (map (epoch_records 0) blocks)) = 0.
Proof.
  induction blocks as [|b blocks IH]; simpl; [reflexivity|].
  now rewrite fold_starts_app, fold_starts_epochs, IH.
Qed.

Lemma combine_seq_snoc {A} (l : list A) (x : A) (a : nat) :
  combine (seq a (length (l ++ [x]))) (l ++ [x])
  = combine (seq a (length l)) l ++ [(a + length l, x)].
Proof.
  revert a. induction l as [|y l IH]; intros a; simpl.
  - now rewrite Nat.add_0_r.
  - rewrite IH, Nat.add_succ_r. reflexivity.
Qed.

Lemma combine_seq_nth {A} (l : list A) (a i j : nat) (x : A) :
  nth_error (combine (seq a (length l)) l) i = Some (j, x) -> j = a + i /\ In x l.
Proof.
  revert a i. induction l as [|y l IH]; intros a i; simpl.
  - destruct i; discriminate.
  - destruct i as [|i]; simpl.
    + intros H. injection H as <- <-. split; [lia | now left].
    + intros H. apply IH in H. destruct H as [-> H]. split; [lia | now right].
Qed.

Lemma fold_logs_snoc (k : nat) (blocks : list (list LogRecord)) (b : list LogRecord) :
  fold_logs k (blocks ++ [b]) = fold_logs k blocks ++ LogFold (length blocks) k :: b.
Proof.
  unfold fold_logs, enumerate. rewrite combine_seq_snoc, map_app, concat_app. simpl.
  now rewrite app_nil_r.
Qed.

(** The test metrics of a log of folds are those of its folds, in order. *)
Lemma test_metrics_folds (k : nat) (blocks : list (list LogRecord)) (ms : list Q) :
  Forall2 (fun b m => test_metrics b = [m]) blocks ms ->
  test_metrics (fold_logs k blocks) = ms.
Proof.
  unfold fold_logs, enumerate. generalize 0.
  intros a H. revert a.
  induction H as [|b m blocks ms Hb _ IH]; intros a; simpl; [reflexivity|].
  now rewrite test_metrics_app, Hb, IH.
Qed.

Lemma objective_calls_folds (k c : nat) (blocks : list (list LogRecord)) :
  Forall (fun b => objective_calls b = c) blocks ->
  objective_calls (fold_logs k blocks) = c * length blocks.
Proof.
  unfold fold_logs, enumerate. generalize 0.
  intros a H. revert a.
  induction H as [|b blocks Hb _ IH]; intros a; simpl; [lia|].
  rewrite objective_calls_app, Hb, IH. lia.
Qed.

(** A collecting loop under an invariant that knows the position of the
    item at hand. *)
Lemma wp_for_collect_nth {W A B} (I : list B -> W -> Prop) (body : A -> M W B) :
  forall (l : list A) (w : W),
    I [] w ->
    (forall x done w', nth_error l (length done) = Some x -> I done w' ->
        wp (body x) w' (fun b w'' => I (done ++ [b]) w'')) ->
    wp (for_collect l body) w (fun bs w' => I bs w' /\ length bs = length l).
Proof.
  intros l. revert I. induction l as [|x r IH]; intros I w H0 Hstep; simpl.
  - apply wp_ret. split; [assumption | reflexivity].
  - apply wp_bind. eapply wp_mono; [apply (Hstep x [] w); [reflexivity | assumption]|].
    intros b w' Hb. simpl in Hb. apply wp_bind.
    eapply wp_mono; [apply (IH (fun done => I (b :: done)) w' Hb)|].
    + intros y done w'' Hy Hd. apply (Hstep y (b :: done) w''); [exact Hy | assumption].
    + intros bs w'' [Hbs Hlen]. apply wp_ret. split; [assumption | simpl; now rewrite Hlen].
Qed.

Section ExperimentLog.
Context {T : Torch} {TL : TorchLaws T} {R : RandomState} {RL : RandomStateLaws R}
        {O : Optuna}.

(** An accepted split, with the exact bounds of its test side: between the
    floor and the ceiling of [n / k] samples. *)
Lemma split_fold_bounds {W : Type} (kf : KFoldT) (n : nat) (w : W) :
  2 <= n_splits kf -> n_splits kf <= n ->
  wp (split kf n) w
     (fun splits w' =>
        w' = w /\ length splits = n_splits kf /\
        forall train test, In (train, test) splits ->
          Forall (fun i => i < n) train /\ Forall (fun i => i < n) test /\
          length train + length test = n /\
          n / n_splits kf <= length test <= max_fold_size n (n_splits kf) /\
          0 < length train /\ 0 < length test).
Proof.
  intros Hk Hn.
  eapply wp_mono;
    [apply (wp_conj _ _ _ _ (split_ok kf n w Hk Hn) (split_test_sizes kf n w Hk Hn))|].
  intros splits w' [(Hw & Hlen & Hs) Hsz]. split; [exact Hw|]. split; [exact Hlen|].
  intros train test Hin.
  destruct (Hs _ _ Hin) as (Htr & Hte & Hsum & [Hlo Hhi] & Htr0 & Hte0).
  specialize (Hsz _ _ Hin). apply fold_size_cases in Hsz.
  split; [exact Htr|]. split; [exact Hte|]. split; [exact Hsum|].
  split; [|split; assumption].
  split; [exact Hlo|].
  unfold max_fold_size. destruct Hsz as [Hsz | [Hsz Hm]].
  - lia.
  - destruct (n mod n_splits kf =? 0) eqn:E; [apply Nat.eqb_eq in E; lia | lia].
Qed.

(** A search appends to the log what its objective calls append, one call
    for every trial it adds; it stops only when the trials are done or the
    time budget is exhausted. *)
Lemma optimize_appends (objective : Trial -> M World (Q * Trial)) (timeout : Q) :
  (forall trial w,
      wp (objective trial) w
         (fun r w' => has_hparams (t_params (snd r)) /\
                      exists recs,
                        log w' = log w ++ recs /\ test_metrics recs = [] /\
                        fold_starts recs = 0 /\ objective_calls recs = 1)) ->
  forall n_trials study w,
    Forall (fun t => has_hparams (ft_params t)) (trials study) ->
    wp (optimize study objective n_trials timeout) w
       (fun study' w' =>
          Forall (fun t => has_hparams (ft_params t)) (trials study') /\
          exists recs,
            log w' = log w ++ recs /\ test_metrics recs = [] /\
            fold_starts recs = 0 /\
            length (trials study') = length (trials study) + objective_calls recs /\
            objective_calls recs <= n_trials /\
            (0 < n_trials ->
             timed_out timeout (study_id study) (length (trials study)) = false ->
             1 <= objective_calls recs) /\
            ((forall j, j < n_trials ->
                        timed_out timeout (study_id study) (length (trials study) + j)
                        = false) ->
             objective_calls recs = n_trials)).
Proof.
  intros Hobj. induction n_trials as [|n IH]; intros study w Hall.
  - simpl. apply wp_ret. split; [exact Hall|]. exists [].
    rewrite app_nil_r. simpl. repeat split; lia.
  - cbn [optimize].
    destruct (timed_out timeout (study_id study) (length (trials study))) eqn:E.
    + apply wp_ret. split; [exact Hall|]. exists [].
      rewrite app_nil_r. simpl.
      split; [reflexivity|]. split; [reflexivity|]. split; [reflexivity|].
      split; [lia|]. split; [lia|]. split; [intros _ H; discriminate|].
      intros H. specialize (H 0 ltac:(lia)). rewrite Nat.add_0_r in H. congruence.
    + apply wp_bind. eapply wp_mono; [apply Hobj|].
      intros [value trial'] w1 (Hkeys & recs1 & Hlog1 & Hm1 & Hf1 & Hc1). simpl in Hkeys.
      eapply wp_mono; [apply IH|].
      * simpl. apply Forall_app. split; [exact Hall|].
        constructor; [exact Hkeys | constructor].
      * intros study' w' (Hall' & recs2 & Hlog2 & Hm2 & Hf2 & Hlen & Hle & _ & Hfull).
        cbn [trials study_id] in Hlen, Hfull.
        rewrite length_app in Hlen, Hfull. cbn [length] in Hlen, Hfull.
        split; [exact Hall'|]. exists (recs1 ++ recs2).
        rewrite test_metrics_app, fold_starts_app, objective_calls_app, Hm1, Hm2, Hf1, Hf2,
          Hc1.
        split; [rewrite Hlog2, Hlog1; now rewrite app_assoc|].
        split; [reflexivity|]. split; [reflexivity|].
        split; [lia|]. split; [lia|]. split; [intros _ _; lia|].
        intros Hclock. rewrite Hfull; [lia|].
        intros j Hj.
        replace (length (trials study) + 1 + j) with (length (trials study) + S j) by lia.
        apply Hclock. lia.
Qed.

(** The experiment, under the conditions that let it run to its end, logs
    fold after fold and then the mean: the stretch of every fold holds no
    other fold-opening record, exactly one test metric (the one collected
    for that fold) and one or two objective calls, two when the search has
    time for its second trial. *)
Lemma experiment_folds (dataset : list Graph) (config : Config) (w : World) :
  cfg_objective config = cv_objective dataset ->
  2 <= cfg_k_outer config ->
  2 * cfg_k_outer config <= length (cfg_dataset config) ->
  2 <= cfg_k_inner config ->
  cfg_k_inner config + max_fold_size (length (cfg_dataset config)) (cfg_k_outer config)
    <= length (cfg_dataset config) ->
  length (cfg_dataset config) - length (cfg_dataset config) / cfg_k_outer config
    <= length dataset ->
  (forall study, timed_out (cfg_timeout_optuna config) study 0 = false) ->
  wp (nested_cv_experiment config) w
     (fun r w' =>
        r = None /\
        exists eval_loss blocks,
          Forall2 (fun b m =>
                     test_metrics b = [m] /\ fold_starts b = 0 /\
                     1 <= objective_calls b <= 2 /\
                     ((forall study, timed_out (cfg_timeout_optuna config) study 1 = false)
                      -> objective_calls b = 2))
                  blocks eval_loss /\
          length eval_loss = cfg_k_outer config /\
          log w' = log w ++ fold_logs (cfg_k_outer config) blocks
                         ++ [LogMeanMSE (np_mean eval_loss)]).
Proof.
  intros Hobj Hko Hn2 Hki Hpool Hglobal Hclock.
  set (n := length (cfg_dataset config)) in *.
  unfold nested_cv_experiment. cbv zeta. fold n.
  apply wp_bind, wp_KFold; [exact Hko|].
  apply wp_bind.
  eapply wp_mono; [apply split_fold_bounds; simpl; lia|].
  intros splits w0 (-> & Hlen & Hsplits). simpl in Hlen, Hsplits.
  apply wp_bind.
  eapply wp_mono.
  - apply (wp_for_collect_nth
             (fun done w' =>
                exists blocks,
                  Forall2 (fun b m =>
                             test_metrics b = [m] /\ fold_starts b = 0 /\
                             1 <= objective_calls b <= 2 /\
                             ((forall study,
                                  timed_out (cfg_timeout_optuna config) study 1 = false)
                              -> objective_calls b = 2))
                          blocks done /\
                  log w' = log w ++ fold_logs (cfg_k_outer config) blocks)).
    + exists []. split; [constructor | unfold fold_logs; simpl; now rewrite app_nil_r].
    + intros [fold [train_ids test_ids]] done w2 Hnth (blocks & Hall & Hlog2).
      unfold enumerate in Hnth. apply combine_seq_nth in Hnth.
      destruct Hnth as [Hfold Hin]. simpl in Hfold.
      pose proof (Forall2_length Hall) as Hbl.
      destruct (Hsplits _ _ Hin) as (Htr & Hte & Hsum & [Hlo Hhi] & Htr0 & Hte0).
      assert (Hq : 2 <= n / cfg_k_outer config)
        by (apply Nat.div_le_lower_bound; lia).
      apply wp_bind, wp_logger_info. apply wp_bind, wp_logger_info.
      apply wp_bind, wp_on_heap. apply wp_bind, wp_logger_info.
      apply wp_bind, wp_create_study.
      rewrite Hobj.
      assert (Hspec : forall trial w0,
                 wp (cv_objective dataset trial (cfg_k_inner config)
                                  (Subset (cfg_dataset config) train_ids)
                                  (cfg_loss_fn config) (cfg_num_epochs config)) w0
                    (fun r w' => has_hparams (t_params (snd r)) /\
                                 exists recs,
                                   log w' = log w0 ++ recs /\ test_metrics recs = [] /\
                                   fold_starts recs = 0 /\ objective_calls recs = 1)).
      { intros trial w0. eapply wp_mono.
        - apply cv_objective_log; [exact Hki | |]; unfold subset_len; simpl; lia.
        - intros r w' (Hkeys & eps & _ & _ & Hlog). split; [exact Hkeys|].
          eexists. split; [exact Hlog|]. simpl.
          now rewrite test_metrics_blocks, fold_starts_blocks, objective_calls_blocks. }
      apply wp_bind.
      eapply wp_mono; [apply (optimize_appends _ _ Hspec 2); constructor|].
      intros study w3 (Hkeys & recs & Hlog3 & Hm3 & Hf3 & Hlen3 & Hle3 & Hone3 & Hfull3).
      cbn [trials study_id length Nat.add] in Hlen3, Hone3, Hfull3.
      specialize (Hone3 ltac:(lia) (Hclock _)).
      apply wp_bind, wp_best_trial.
      { intros E. rewrite E in Hlen3. simpl in Hlen3. lia. }
      intros best Hbest.
      rewrite Forall_forall in Hkeys. destruct (Hkeys best Hbest) as [Hlr Hwd].
      apply wp_bind, wp_logger_info.
      apply wp_bind, wp_dict_getitem; [exact Hlr|]. intros lr.
      apply wp_bind, wp_dict_getitem; [exact Hwd|]. intros weight_decay.
      apply wp_bind, wp_call_heap.
      apply wp_bind, wp_logger_info. apply wp_bind, wp_on_heap.
      apply wp_bind, wp_DataLoader; [lia | discriminate |].
      apply wp_bind.
      eapply wp_mono; [apply train_log|].
      * split; [simpl; lia | exact Htr].
      * exact Htr0.
      * intros _ w4 (losses & _ & Hlog4).
        apply wp_bind, wp_DataLoader; [lia | discriminate |].
        apply wp_bind.
        eapply wp_mono; [apply test_ok|].
        -- split; [simpl; lia | exact Hte].
        -- unfold subset_len. simpl. lia.
        -- intros mse_fold w5 [Hlog5 _]. apply wp_ret.
           exists (blocks ++
                   [[LogLengths (length train_ids) (length test_ids)
                                (length test_ids + length train_ids); LogOptimizing]
                    ++ recs ++ [LogBestHparams; LogRetrain]
                    ++ epoch_records 0 losses ++ [LogTestMSE mse_fold]]).
           split.
           ++ apply Forall2_app; [exact Hall|]. constructor; [|constructor].
              cbn [app test_metrics fold_starts objective_calls].
              rewrite !test_metrics_app, !fold_starts_app, !objective_calls_app.
              cbn [app test_metrics fold_starts objective_calls].
              rewrite !test_metrics_app, !fold_starts_app, !objective_calls_app.
              rewrite Hm3, Hf3, test_metrics_epochs, fold_starts_epochs,
                objective_calls_epochs.
              cbn [app test_metrics fold_starts objective_calls].
              split; [reflexivity|]. split; [reflexivity|]. split; [lia|].
              intros Hsecond. rewrite Hfull3; [lia|].
              intros j Hj. destruct j as [|[|j]]; [apply Hclock | apply Hsecond | lia].
           ++ rewrite Hlog5, Hlog4. cbn [log]. rewrite Hlog3. cbn [log].
              rewrite Hlog2, fold_logs_snoc, Hfold, Hbl.
              repeat rewrite <- app_assoc. reflexivity.
  - intros eval_loss w1 [(blocks & Hall & Hlog) Hlen']. apply wp_bind, wp_logger_info, wp_ret.
    split; [reflexivity|]. exists eval_loss, blocks.
    split; [exact Hall|]. split.
    + rewrite Hlen'. unfold enumerate. rewrite length_combine, length_seq. lia.
    + cbn [log]. rewrite Hlog. now rewrite <- app_assoc.
Qed.
End ExperimentLog.

(** ** The experiment reports the mean of its fold metrics *)

(** C3 (amended). Take a configuration whose objective is [cv_objective]
    over the global [dataset], with at least two outer and two inner folds,
    at least two samples in every outer test fold ([2 * k_outer <= N]), at
    least [k_inner] samples in every outer train-subset
    ([k_inner <= N - ceil (N / k_outer)]) and a global dataset that holds at
    least as many graphs as the largest outer train-subset
    ([N - floor (N / k_outer) <= len(dataset)]); let every search start
    before its time budget is exhausted.  Then [nested_cv_experiment] runs to
    its end and returns [None].  It computes exactly [k_outer] test metrics,
    one per outer fold: its log is the log of [k_outer] folds, each opened by
    its own record and holding exactly one test metric, the one collected
    for that fold, followed by one last record with the arithmetic mean of
    the metrics collected. *)
Theorem nested_cv_reports_mean (T : Torch) (TL : TorchLaws T)
        (R : RandomState) (RL : RandomStateLaws R) (O : Optuna)
        (dataset : list Graph) (config : Config) (w : World) :
  cfg_objective config = cv_objective dataset ->
  2 <= cfg_k_outer config ->
  2 * cfg_k_outer config <= length (cfg_dataset config) ->
  2 <= cfg_k_inner config ->
  cfg_k_inner config + max_fold_size (length (cfg_dataset config)) (cfg_k_outer config)
    <= length (cfg_dataset config) ->
  length (cfg_dataset config) - length (cfg_dataset config) / cfg_k_outer config
    <= length dataset ->
  (forall study, timed_out (cfg_timeout_optuna config) study 0 = false) ->
  exists eval_loss blocks w',
    nested_cv_experiment config w = Ok None w' /\
    length eval_loss = cfg_k_outer config /\
    Forall2 (fun b m => test_metrics b = [m] /\ fold_starts b = 0) blocks eval_loss /\
    log w' = log w ++ fold_logs (cfg_k_outer config) blocks
                   ++ [LogMeanMSE (np_mean eval_loss)] /\
    test_metrics (log w') = test_metrics (log w) ++ eval_loss.
Proof.
  intros Hobj Hko Hn2 Hki Hpool Hglobal Hclock.
  pose proof (experiment_folds dataset config w Hobj Hko Hn2 Hki Hpool Hglobal Hclock)
    as Hrun.
  apply wp_ok in Hrun.
  destruct Hrun as (r & w' & Heq & -> & eval_loss & blocks & Hall & Hlen & Hlog).
  assert (Hone : Forall2 (fun b m => test_metrics b = [m] /\ fold_starts b = 0)
                         blocks eval_loss).
  { eapply Forall2_impl; [|exact Hall]. intros b m (Hm & Hf & _). now split. }
  exists eval_loss, blocks, w'.
  split; [exact Heq|]. split; [exact Hlen|]. split; [exact Hone|]. split; [exact Hlog|].
  rewrite Hlog, !test_metrics_app. simpl. rewrite app_nil_r. f_equal.
  apply test_metrics_folds.
  eapply Forall2_impl; [|exact Hone]. intros b m [Hm _]. exact Hm.
Qed.

Lemma nested_cv_reports_mean_witness :
  exists eval_loss blocks w',
    @nested_cv_experiment toy_torch toy_random toy_optuna (toy_config 6 3 4 2 32)
                          (toy_world 0) = Ok None w' /\
    length eval_loss = 3 /\
    Forall2 (fun b m => test_metrics b = [m] /\ fold_starts b = 0) blocks eval_loss /\
    log w' = log (toy_world 0) ++ fold_logs 3 blocks
                               ++ [LogMeanMSE (np_mean eval_loss)] /\
    test_metrics (log w') = test_metrics (log (toy_world 0)) ++ eval_loss.
Proof.
  apply (nested_cv_reports_mean toy_torch toy_torch_laws toy_random toy_random_laws
           toy_optuna (toy_dataset 6) (toy_config 6 3 4 2 32) (toy_world 0)).
  - reflexivity.
  - simpl. lia.
  - vm_compute. lia.
  - simpl. lia.
  - vm_compute. lia.
  - vm_compute. lia.
  - intros study. reflexivity.
Defined.

(** ** Zero samples in the program *)

(** C7 (amended). The division by the accumulated sample count is not
    guarded in the trainer or in the evaluator: given a batched dataset
    whose total sample count is zero, [train_one_epoch] and [validate] go
    through their empty loop, reach the division and fail there with a
    division-by-zero error.  What is rejected before training starts are
    the fold counts that would leave a fold without samples: asked for fewer
    than two folds, or for more folds than there are samples, the K-fold
    splitter raises a value error and leaves the world as it was, and both
    sides of every split it accepts are non-empty.  With such an outer fold
    count [nested_cv_experiment] fails with that value error in an
    unchanged world, and with such an inner fold count [cv_objective] fails
    with it after its opening log record, before any epoch. *)
Theorem zero_samples_reach_division (T : Torch) (TL : TorchLaws T)
        (R : RandomState) (RL : RandomStateLaws R) (O : Optuna) :
  (forall (loader : DataLoaderT) (optimizer : Optimizer) (loss_fn : LossFn) (w : World),
      subset_len (dl_dataset loader) = 0 ->
      raises (train_one_epoch loader optimizer loss_fn) w ZeroDivisionError /\
      raises (validate loader loss_fn) w ZeroDivisionError) /\
  (forall (k n seed : nat) (sh : bool) (w : World),
      k <= 1 \/ n < k ->
      (kf <- KFold k sh seed ;; split kf n) w = Raise ValueError w) /\
  (forall (k n seed : nat) (sh : bool) (w : World),
      2 <= k -> k <= n ->
      wp (kf <- KFold k sh seed ;; split kf n) w
         (fun splits w' =>
            w' = w /\
            forall train test, In (train, test) splits ->
                               0 < length train /\ 0 < length test)) /\
  (forall (config : Config) (w : World),
      cfg_k_outer config <= 1 \/ length (cfg_dataset config) < cfg_k_outer config ->
      nested_cv_experiment config w = Raise ValueError w) /\
  (forall (dataset : list Graph) (trial : Trial) (k_inner : nat)
          (train_val_data : SubsetT) (loss_fn : LossFn) (num_epochs : nat) (w : World),
      k_inner <= 1 \/ subset_len train_val_data < k_inner ->
      fails (cv_objective dataset trial k_inner train_val_data loss_fn num_epochs) w
            ValueError (fun w' => log w' = log w ++ [LogInnerCV])).
Proof.
  split; [|split; [|split; [|split]]].
  - intros loader optimizer loss_fn w H0. split.
    + unfold raises, train_one_epoch, bind.
      rewrite (loader_batches_empty loader w H0). reflexivity.
    + unfold raises, validate, no_grad, finally, bind, on_heap, modify.
      rewrite loader_batches_empty by exact H0. reflexivity.
  - intros k n seed sh w Hbad. unfold bind, KFold.
    destruct (k <=? 1) eqn:Ek; [reflexivity|].
    apply Nat.leb_gt in Ek. destruct Hbad as [Hbad | Hbad]; [lia|].
    unfold ret, split. cbn [n_splits].
    destruct (n <? k) eqn:E; [reflexivity | apply Nat.ltb_ge in E; lia].
  - intros k n seed sh w Hk Hn. apply wp_bind, wp_KFold; [exact Hk|].
    eapply wp_mono; [apply split_ok; simpl; assumption|].
    intros splits w' (Hw & _ & Hs). split; [exact Hw|].
    intros train test Hin. destruct (Hs _ _ Hin) as (_ & _ & _ & _ & Htr0 & Hte0).
    now split.
  - intros config w Hbad. unfold nested_cv_experiment. cbv zeta. unfold bind at 1, KFold.
    destruct (cfg_k_outer config <=? 1) eqn:Ek; [reflexivity|].
    apply Nat.leb_gt in Ek. destruct Hbad as [Hbad | Hbad]; [lia|].
    unfold ret at 1. unfold bind at 1, split. cbn [n_splits].
    destruct (length (cfg_dataset config) <? cfg_k_outer config) eqn:E;
      [reflexivity | apply Nat.ltb_ge in E; lia].
  - intros dataset trial k_inner train_val_data loss_fn num_epochs w Hbad.
    unfold cv_objective. apply fails_bind, wp_logger_info.
    destruct (k_inner <=? 1) eqn:Ek.
    + apply fails_first. unfold KFold. rewrite Ek. now apply fails_raise.
    + apply Nat.leb_gt in Ek. destruct Hbad as [Hbad | Hbad]; [lia|].
      apply fails_bind, wp_KFold; [lia|].
      destruct (suggest_float trial "lr" (1 # 100000) (1 # 100)) as [lr trial1].
      destruct (suggest_float trial1 "weight_decay" (1 # 100000) (1 # 1000))
        as [weight_decay trial2].
      apply fails_bind, wp_call_heap. apply fails_first.
      unfold split. cbn [n_splits].
      destruct (subset_len train_val_data <? k_inner) eqn:E;
        [|apply Nat.ltb_ge in E; lia].
      now apply fails_raise.
Qed.

Lemma zero_samples_reach_division_witness :
  (raises (@train_one_epoch toy_torch (toy_loader [] 32) (1 # 100) mse_loss)
          (toy_world 0) ZeroDivisionError /\
   raises (@validate toy_torch (toy_loader [] 32) mse_loss)
          (toy_world 0) ZeroDivisionError) /\
  (kf <- KFold 5 true 22 ;; @split toy_random _ kf 3) (toy_world 0)
  = Raise ValueError (toy_world 0) /\
  wp (kf <- KFold 3 true 22 ;; @split toy_random _ kf 6) (toy_world 0)
     (fun splits w' =>
        w' = toy_world 0 /\
        forall train test, In (train, test) splits ->
                           0 < length train /\ 0 < length test) /\
  @nested_cv_experiment toy_torch toy_random toy_optuna (toy_config 3 5 2 2 32)
                        (toy_world 0)
  = Raise ValueError (toy_world 0) /\
  fails (@cv_objective toy_torch toy_random toy_optuna (toy_dataset 6) (fresh_trial 0 0) 3
                       (@Subset toy_torch (toy_dataset 6) [4; 5]) mse_loss 1)
        (toy_world 0) ValueError
        (fun w' => log w' = log (toy_world 0) ++ [LogInnerCV]).
Proof.
  pose proof (zero_samples_reach_division toy_torch toy_torch_laws toy_random
                toy_random_laws toy_optuna) as H.
  destruct H as (Hdiv & Hrej & Hacc & Hexp & Hobj).
  split; [apply Hdiv; reflexivity|].
  split; [apply Hrej; right; lia|].
  split; [apply Hacc; lia|].
  split; [apply Hexp; right; vm_compute; lia|].
  apply Hobj. right. vm_compute. lia.
Defined.

(** ** Two objective calls in every outer fold *)

(** X19. When no search runs out of time before its second trial, the
    experiment (under the size conditions that let it run to its end)
    returns [None] and calls the objective exactly twice in every outer
    fold, whatever [n_trials] the configuration asks for: its log is the log
    of [k_outer] folds, each opened by its own record and holding exactly
    two opening records of the objective, followed by the record of the
    mean; that makes [2 * k_outer] calls in all. *)
Theorem two_objective_calls_per_fold (T : Torch) (TL : TorchLaws T)
        (R : RandomState) (RL : RandomStateLaws R) (O : Optuna)
        (dataset : list Graph) (config : Config) (w : World) :
  cfg_objective config = cv_objective dataset ->
  2 <= cfg_k_outer config ->
  2 * cfg_k_outer config <= length (cfg_dataset config) ->
  2 <= cfg_k_inner config ->
  cfg_k_inner config + max_fold_size (length (cfg_dataset config)) (cfg_k_outer config)
    <= length (cfg_dataset config) ->
  length (cfg_dataset config) - length (cfg_dataset config) / cfg_k_outer config
    <= length dataset ->
  (forall study i, i < 2 -> timed_out (cfg_timeout_optuna config) study i = false) ->
  exists blocks m w',
    nested_cv_experiment config w = Ok None w' /\
    length blocks = cfg_k_outer config /\
    Forall (fun b => objective_calls b = 2 /\ fold_starts b = 0) blocks /\
    log w' = log w ++ fold_logs (cfg_k_outer config) blocks ++ [LogMeanMSE m] /\
    objective_calls (log w') = objective_calls (log w) + 2 * cfg_k_outer config.
Proof.
  intros Hobj Hko Hn2 Hki Hpool Hglobal Hclock.
  pose proof (experiment_folds dataset config w Hobj Hko Hn2 Hki Hpool Hglobal
                (fun study => Hclock study 0 ltac:(lia))) as Hrun.
  apply wp_ok in Hrun.
  destruct Hrun as (r & w' & Heq & -> & eval_loss & blocks & Hall & Hlen & Hlog).
  assert (Htwo : Forall (fun b => objective_calls b = 2 /\ fold_starts b = 0) blocks).
  { clear - Hall Hclock. induction Hall as [|b m blocks ms (_ & Hf & _ & Hc) _ IH];
      constructor; [|exact IH].
    split; [|exact Hf]. apply Hc. intros study. apply Hclock. lia. }
  assert (Hbl : length blocks = cfg_k_outer config).
  { now rewrite (Forall2_length Hall). }
  exists blocks, (np_mean eval_loss), w'.
  split; [exact Heq|]. split; [exact Hbl|]. split; [exact Htwo|]. split; [exact Hlog|].
  rewrite Hlog, !objective_calls_app. simpl.
  rewrite (objective_calls_folds _ 2), Hbl; [lia|].
  eapply Forall_impl; [|exact Htwo]. intros b [Hb _]. exact Hb.
Qed.

Lemma two_objective_calls_per_fold_witness :
  exists blocks m w',
    @nested_cv_experiment toy_torch toy_random toy_optuna (toy_config 6 3 2 1 32)
                          (toy_world 0) = Ok None w' /\
    length blocks = 3 /\
    Forall (fun b => objective_calls b = 2 /\ fold_starts b = 0) blocks /\
    log w' = log (toy_world 0) ++ fold_logs 3 blocks ++ [LogMeanMSE m] /\
    objective_calls (log w') = objective_calls (log (toy_world 0)) + 2 * 3.
Proof.
  apply (two_objective_calls_per_fold toy_torch toy_torch_laws toy_random
           toy_random_laws toy_optuna (toy_dataset 6) (toy_config 6 3 2 1 32)
           (toy_world 0)).
  - reflexivity.
  - simpl. lia.
  - vm_compute. lia.
  - simpl. lia.
  - vm_compute. lia.
  - vm_compute. lia.
  - intros study i _. reflexivity.
Defined.
